(** * PhoBoCo email autoresponder: a shallow embedding of
      [email_autoresponder.py] and the properties of its pipeline.

    The script lists the unread messages of four Gmail labels, asks
    OpenAI's chat endpoint for a reply to each and stores the reply as a
    draft.  Its three functions [generate_reply], [create_message] and
    [process_unread_messages] are embedded below:

    - a Python [str] is the list of its code points, [bytes] a list of
      [Byte.byte];
    - the remote services (Gmail, the chat endpoint) are oracles over an
      abstract world, every call is recorded as an [event];
    - exceptions are values of [exn]; a computation is a function from
      the world to the new world, the events it emitted and either a
      value or the exception that ended it;
    - the [email] package is a parameter ([EmailLib]): which header
      values it accepts and how it renders a message as bytes.  What
      [set_content] keeps of the text and base64 are modelled in full;
      [plain_email] is the instance that renders a plain message the
      way CPython 3.11 does, and the statements on what is read back
      from a draft are made about it. *)

From Stdlib Require Import NArith ZArith QArith List String Ascii Lia Bool.
From Stdlib.Strings Require Import Byte.
From stdpp Require Import gmap list.
Import ListNotations.

Local Open Scope N_scope.
Local Open Scope list_scope.

(** ** Python strings *)

Module Str.

(** A [str] is a sequence of Unicode code points. *)
Definition char := N.
Definition pystr := list char.

(** A literal of the source, read character by character. *)
Definition lit (s : string) : pystr :=
  List.map N_of_ascii (list_ascii_of_string s).

(** [str.isspace] on one character: the code points for which CPython's
    [_PyUnicode_IsWhitespace] answers true. *)
Definition is_space (c : char) : bool :=
  ((9 <=? c) && (c <=? 13))
  || ((28 <=? c) && (c <=? 32))
  || (c =? 133) || (c =? 160) || (c =? 5760)
  || ((8192 <=? c) && (c <=? 8202))
  || (c =? 8232) || (c =? 8233) || (c =? 8239) || (c =? 8287)
  || (c =? 12288).

Fixpoint lstrip (s : pystr) : pystr :=
  match s with
  | c :: s' => if is_space c then lstrip s' else s
  | [] => []
  end.

Definition rstrip (s : pystr) : pystr := rev (lstrip (rev s)).

(** [s.strip()] without argument. *)
Definition strip (s : pystr) : pystr := lstrip (rstrip s).

(** The line boundaries of [str.splitlines]; CR LF counts as one. *)
Definition is_linebreak (c : char) : bool :=
  ((10 <=? c) && (c <=? 13))
  || ((28 <=? c) && (c <=? 30))
  || (c =? 133) || (c =? 8232) || (c =? 8233).

End Str.
Export Str.

(** ** Python bytes: UTF-8, [bytes.splitlines], base64 *)

Module Bytes.

Definition bytes := list byte.

Definition byte_of_N (n : N) : byte :=
  match Byte.of_N n with Some b => b | None => x00 end.

(** [ch.encode('utf-8')] for one code point; [None] is
    [UnicodeEncodeError] (a surrogate, which UTF-8 cannot carry). *)
Definition utf8_char (c : char) : option bytes :=
  if c <? 128 then Some [byte_of_N c]
  else if c <? 2048 then
    Some [byte_of_N (N.lor 192 (N.shiftr c 6));
          byte_of_N (N.lor 128 (N.land c 63))]
  else if c <? 65536 then
    if (55296 <=? c) && (c <=? 57343) then None
    else
      Some [byte_of_N (N.lor 224 (N.shiftr c 12));
            byte_of_N (N.lor 128 (N.land (N.shiftr c 6) 63));
            byte_of_N (N.lor 128 (N.land c 63))]
  else if c <? 1114112 then
    Some [byte_of_N (N.lor 240 (N.shiftr c 18));
          byte_of_N (N.lor 128 (N.land (N.shiftr c 12) 63));
          byte_of_N (N.lor 128 (N.land (N.shiftr c 6) 63));
          byte_of_N (N.lor 128 (N.land c 63))]
  else None.

Fixpoint encode_utf8 (s : pystr) : option bytes :=
  match s with
  | [] => Some []
  | c :: s' =>
      match utf8_char c, encode_utf8 s' with
      | Some bs, Some rest => Some (bs ++ rest)
      | _, _ => None
      end
  end.

(** [bs.decode()] of ASCII bytes, as used on the output of base64. *)
Definition decode_ascii (bs : bytes) : pystr := List.map Byte.to_N bs.

(** [s.encode()] of an ASCII [str]. *)
Definition encode_ascii (s : pystr) : bytes := List.map byte_of_N s.

(** [splitlines] without [keepends]: [brk] tells the line boundaries,
    a [cr] directly followed by an [lf] is one boundary.  [cur] is the
    line read so far, last character first. *)
Fixpoint splitlines_from {A} (brk cr lf : A -> bool) (cur s : list A)
  : list (list A) :=
  match s with
  | [] => match cur with [] => [] | _ => [rev cur] end
  | c :: s' =>
      if brk c then
        rev cur ::
          match s' with
          | d :: s'' =>
              if cr c && lf d then splitlines_from brk cr lf [] s''
              else splitlines_from brk cr lf [] s'
          | [] => []
          end
      else splitlines_from brk cr lf (c :: cur) s'
  end.

Definition is_CR (b : byte) : bool := Byte.to_N b =? 13.
Definition is_LF (b : byte) : bool := Byte.to_N b =? 10.

(** [bytes.splitlines()]: only LF, CR and CR LF end a line. *)
Definition bytes_splitlines (bs : bytes) : list bytes :=
  splitlines_from (fun b => is_CR b || is_LF b) is_CR is_LF [] bs.

(** [str.splitlines()]. *)
Definition str_splitlines (s : pystr) : list pystr :=
  splitlines_from is_linebreak (N.eqb 13) (N.eqb 10) [] s.

(** *** base64 (RFC 4648), standard and URL-safe alphabets *)

(** The character of the standard alphabet for a 6-bit value. *)
Definition b64_char (i : N) : byte :=
  byte_of_N
    (if i <? 26 then 65 + i
     else if i <? 52 then 97 + (i - 26)
     else if i <? 62 then 48 + (i - 52)
     else if i =? 62 then 43 else 47).

(** The 6-bit value of a character of the standard alphabet. *)
Definition b64_index (c : byte) : option N :=
  let n := Byte.to_N c in
  if (65 <=? n) && (n <=? 90) then Some (n - 65)
  else if (97 <=? n) && (n <=? 122) then Some (n - 97 + 26)
  else if (48 <=? n) && (n <=? 57) then Some (n - 48 + 52)
  else if n =? 43 then Some 62
  else if n =? 47 then Some 63
  else None.

Definition pad : byte := "="%byte.

Definition sextet0 (b0 : byte) : N := N.shiftr (Byte.to_N b0) 2.
Definition sextet1 (b0 b1 : byte) : N :=
  N.lor (N.shiftl (N.land (Byte.to_N b0) 3) 4) (N.shiftr (Byte.to_N b1) 4).
Definition sextet2 (b1 b2 : byte) : N :=
  N.lor (N.shiftl (N.land (Byte.to_N b1) 15) 2) (N.shiftr (Byte.to_N b2) 6).
Definition sextet3 (b2 : byte) : N := N.land (Byte.to_N b2) 63.

(** [base64.b64encode]: three bytes become four characters, a last group
    of one or two bytes is padded with [=]. *)
Fixpoint b64encode (bs : bytes) : bytes :=
  match bs with
  | b0 :: b1 :: b2 :: rest =>
      b64_char (sextet0 b0) :: b64_char (sextet1 b0 b1)
        :: b64_char (sextet2 b1 b2) :: b64_char (sextet3 b2)
        :: b64encode rest
  | [b0; b1] =>
      [b64_char (sextet0 b0); b64_char (sextet1 b0 b1);
       b64_char (sextet2 b1 x00); pad]
  | [b0] =>
      [b64_char (sextet0 b0); b64_char (sextet1 b0 x00); pad; pad]
  | [] => []
  end.

(** [bytes.maketrans(b'+/', b'-_')] and its inverse. *)
Definition urlsafe_encode_translation (c : byte) : byte :=
  if Byte.eqb c "+"%byte then "-"%byte
  else if Byte.eqb c "/"%byte then "_"%byte else c.

Definition urlsafe_decode_translation (c : byte) : byte :=
  if Byte.eqb c "-"%byte then "+"%byte
  else if Byte.eqb c "_"%byte then "/"%byte else c.

Definition urlsafe_b64encode (bs : bytes) : bytes :=
  List.map urlsafe_encode_translation (b64encode bs).

Definition octet0 (s0 s1 : N) : byte :=
  byte_of_N (N.lor (N.shiftl s0 2) (N.shiftr s1 4)).
Definition octet1 (s1 s2 : N) : byte :=
  byte_of_N (N.lor (N.shiftl (N.land s1 15) 4) (N.shiftr s2 2)).
Definition octet2 (s2 s3 : N) : byte :=
  byte_of_N (N.lor (N.shiftl (N.land s2 3) 6) s3).

(** [base64.b64decode] on canonical input (groups of four characters of
    the alphabet, padding only in the last group); [None] elsewhere. *)
Fixpoint b64decode (cs : bytes) : option bytes :=
  match cs with
  | [] => Some []
  | c0 :: c1 :: c2 :: c3 :: rest =>
      match b64_index c0, b64_index c1 with
      | Some s0, Some s1 =>
          if Byte.eqb c3 pad then
            match rest with
            | [] =>
                if Byte.eqb c2 pad then Some [octet0 s0 s1]
                else
                  match b64_index c2 with
                  | Some s2 => Some [octet0 s0 s1; octet1 s1 s2]
                  | None => None
                  end
            | _ :: _ => None
            end
          else
            match b64_index c2, b64_index c3, b64decode rest with
            | Some s2, Some s3, Some out =>
                Some (octet0 s0 s1 :: octet1 s1 s2 :: octet2 s2 s3 :: out)
            | _, _, _ => None
            end
      | _, _ => None
      end
  | _ => None
  end.

Definition urlsafe_b64decode (cs : bytes) : option bytes :=
  b64decode (List.map urlsafe_decode_translation cs).

(** [base64.urlsafe_b64decode] given an ASCII [str]. *)
Definition urlsafe_b64decode_str (s : pystr) : option bytes :=
  urlsafe_b64decode (encode_ascii s).

(** The 256 bytes, and a test over all of them. *)
Definition all_bytes : list byte :=
  List.map byte_of_N (List.map N.of_nat (seq 0 256)).

Definition forall_byte (P : byte -> bool) : bool := forallb P all_bytes.

(** A character of the URL-safe alphabet, read back: it is not the
    padding and it has the 6-bit value [s]. *)
Definition reads_back (s : N) : bool :=
  let c := urlsafe_decode_translation (urlsafe_encode_translation (b64_char s)) in
  negb (Byte.eqb c pad)
  && match b64_index c with Some s' => s' =? s | None => false end.

End Bytes.
Export Bytes.

(** ** Exceptions and results *)

(** The exception classes the script can meet.  [HttpError] is
    [googleapiclient.errors.HttpError], the only class the label loop
    catches; [OpenAIError] stands for the errors of the [openai] package;
    [OtherException] is any further class (transport errors, errors of
    the [email] package), named by [cls]. *)
Inductive exn :=
| HttpError (detail : pystr)
| RuntimeError (msg : pystr)
| OpenAIError (detail : pystr)
| IndexError (msg : pystr)
| ValueError (msg : pystr)
| UnicodeEncodeError
| OtherException (cls detail : pystr).

(** [isinstance(e, HttpError)], the test of [except HttpError]. *)
Definition is_HttpError (e : exn) : bool :=
  match e with HttpError _ => true | _ => false end.

(** [str(e)], as an f-string prints it. *)
Definition exn_str (e : exn) : pystr :=
  match e with
  | HttpError d | OpenAIError d | OtherException _ d => d
  | RuntimeError m | IndexError m | ValueError m => m
  | UnicodeEncodeError => lit "codec can't encode character"
  end.

Inductive result (A : Type) :=
| Ok (a : A)
| Raise (e : exn).
Arguments Ok {A} a.
Arguments Raise {A} e.

#[global] Instance result_ret : MRet result := fun A a => Ok a.
#[global] Instance result_bind : MBind result := fun A B k r =>
  match r with Ok a => k a | Raise e => Raise e end.

(** ** The Draft Composer: [create_message] *)

(** What the script puts into an [email.message.EmailMessage]: the header
    values in the order they are assigned, and the lines of the text
    given to [set_content] ([email.contentmanager] reads the text only
    through [string.encode(charset).splitlines()]; the transfer encoding
    and the Content-* and MIME-Version headers it derives from these
    lines are part of the rendering, [as_bytes]). *)
Record EmailMessage := {
  msg_headers : list (pystr * pystr);
  msg_lines : option (list bytes);
}.

(** The [email] package with its default policy, as far as the script
    depends on it: [header_error name value] is the exception that
    [msg[name] = value] raises, if any (a value of several lines, an
    address the parser fails on); [as_bytes] renders the message or
    raises. *)
Record EmailLib := {
  header_error : pystr -> pystr -> option exn;
  as_bytes : EmailMessage -> result bytes;
}.

(** The Gmail draft resource built by [create_message]: [{"raw": raw}]. *)
Record draft := { raw : pystr }.

(** The text of the first header called [name] in a list of headers:
    for the headers of an [EmailMessage], the text the script assigned.
    This is not [msg.get(name)]: the [email] package parses the text it
    is given (see [unstructured_value] below for the Subject), and what
    it gives back and renders is the parsed header. *)
Fixpoint get_header (name : pystr) (hs : list (pystr * pystr)) : option pystr :=
  match hs with
  | [] => None
  | (n, v) :: hs' => if decide (n = name) then Some v else get_header name hs'
  end.

Section Composer.

Context (email : EmailLib).

Definition new_message : EmailMessage :=
  {| msg_headers := []; msg_lines := None |}.

(** [msg[name] = value].  Each name is assigned once on a fresh message,
    so the policy's limit of one To, From and Subject is never reached. *)
Definition setitem (name value : pystr) (msg : EmailMessage) : result EmailMessage :=
  match header_error email name value with
  | Some e => Raise e
  | None =>
      Ok {| msg_headers := msg_headers msg ++ [(name, value)];
            msg_lines := msg_lines msg |}
  end.

(** [msg.set_content(text)] for a [str], charset utf-8. *)
Definition set_content (text : pystr) (msg : EmailMessage) : result EmailMessage :=
  match encode_utf8 text with
  | None => Raise UnicodeEncodeError
  | Some bs =>
      Ok {| msg_headers := msg_headers msg;
            msg_lines := Some (bytes_splitlines bs) |}
  end.

(** Lines 153 to 157 of [create_message]: the message before it is
    rendered. *)
Definition build_message (from_email to_email subject message_text : pystr)
  : result EmailMessage :=
  msg ← setitem (lit "To") to_email new_message;
  msg ← setitem (lit "From") from_email msg;
  msg ← setitem (lit "Subject") (lit "Re: " ++ subject) msg;
  set_content message_text msg.

Definition create_message (from_email to_email subject message_text : pystr)
  : result draft :=
  msg ← build_message from_email to_email subject message_text;
  bs ← as_bytes email msg;
  let raw := decode_ascii (urlsafe_b64encode bs) in
  Ok {| raw := raw |}.

End Composer.

(** ** The remote services *)

(** Arguments of [users().messages().list]. *)
Record list_request := {
  list_userId : pystr;
  list_labelIds : list pystr;
  list_q : pystr;
}.

(** Arguments of [users().messages().get]. *)
Record get_request := {
  get_userId : pystr;
  get_id : pystr;
  get_format : pystr;
  get_metadataHeaders : list pystr;
}.

(** Arguments of [users().drafts().create]; [body] is
    [{"message": draft_message}]. *)
Record draft_request := {
  draft_userId : pystr;
  draft_body_message : draft;
}.

(** Arguments of [openai.ChatCompletion.create]; [messages] is the single
    entry [{"role": "user", "content": prompt}]. *)
Record chat_message := { role : pystr; content : pystr }.
Record chat_request := {
  chat_model : pystr;
  chat_messages : list chat_message;
  chat_max_tokens : N;
  chat_temperature : Q;
}.

(** The answers are records of the fields the script reads.  A field it
    reads by index ([message["id"]], [full_msg["payload"]], [h["name"]],
    [h["value"]], the [message] and [content] of a choice) is always
    there, as the services document it; a field it reads with [get] and
    a default is optional. *)

(** The answer of [list]: the key [messages] may be missing. *)
Record message_ref := { id : pystr }.
Record list_response := { messages : option (list message_ref) }.

(** The answer of [get] in [metadata] format. *)
Record header := { name : pystr; value : pystr }.
Record message_payload := { headers : option (list header) }.
Record message_resource := {
  payload : message_payload;
  snippet : option pystr;
}.

(** The answer of the chat endpoint. *)
Record chat_choice := { message : chat_message }.
Record chat_response := { choices : list chat_choice }.

(** Every call the script makes to the outside, and every line it
    prints, in the order they happen. *)
Inductive event :=
| MessagesList (r : list_request)
| MessagesGet (r : get_request)
| ChatCompletionCreate (r : chat_request)
| DraftsCreate (r : draft_request)
| Print (line : pystr).

(** The surroundings of one run.  [execute] of a Gmail request answers or
    raises (an [HttpError], or anything else the transport raises); the
    chat endpoint answers or fails with an error of the [openai] package,
    of which [inl] carries the text.  [environ] is [os.environ]. *)
Record Services (World : Type) := {
  environ : gmap pystr pystr;
  messages_list : list_request -> World -> World * result list_response;
  messages_get : get_request -> World -> World * result message_resource;
  drafts_create : draft_request -> World -> World * result unit;
  chat_completion_create : chat_request -> World -> World * (pystr + chat_response);
}.
Arguments environ {World} _.
Arguments messages_list {World} _ _ _.
Arguments messages_get {World} _ _ _.
Arguments drafts_create {World} _ _ _.
Arguments chat_completion_create {World} _ _ _.

(** ** Computations *)

(** The outcome of running a piece of the script from a world: the world
    it leaves, the events it emitted, its value or its exception. *)
Definition M (World A : Type) : Type := World -> World * list event * result A.

Section Monad.

Context {World : Type}.

Definition ret {A} (a : A) : M World A := fun w => (w, [], Ok a).

Definition raise {A} (e : exn) : M World A := fun w => (w, [], Raise e).

Definition bind {A B} (m : M World A) (k : A -> M World B) : M World B :=
  fun w =>
    match m w with
    | (w1, t1, Ok a) =>
        match k a w1 with (w2, t2, r) => (w2, t1 ++ t2, r) end
    | (w1, t1, Raise e) => (w1, t1, Raise e)
    end.

(** A pure step that may raise. *)
Definition lift {A} (r : result A) : M World A := fun w => (w, [], r).

(** One call to a service, recorded as [ev]. *)
Definition call {A} (ev : event) (f : World -> World * result A) : M World A :=
  fun w => match f w with (w1, r) => (w1, [ev], r) end.

Definition print (line : pystr) : M World unit := fun w => (w, [Print line], Ok tt).

(** [try: m  except C as e: handler e], where [catches] tells the
    instances of [C]. *)
Definition try_except {A} (m : M World A) (catches : exn -> bool)
    (handler : exn -> M World A) : M World A :=
  fun w =>
    match m w with
    | (w1, t1, Raise e) =>
        if catches e then
          match handler e w1 with (w2, t2, r) => (w2, t1 ++ t2, r) end
        else (w1, t1, Raise e)
    | done => done
    end.

(** [for x in xs: body x]. *)
Fixpoint for_each {A} (xs : list A) (body : A -> M World unit) : M World unit :=
  match xs with
  | [] => ret tt
  | x :: xs' => bind (body x) (fun _ => for_each xs' body)
  end.

End Monad.

#[global] Instance M_ret {World} : MRet (M World) := fun A => ret.
#[global] Instance M_bind {World} : MBind (M World) := fun A B k m => bind m k.

(** [after t o]: the outcome [o], reached after the events [t]. *)
Definition after {World A} (t : list event) (o : World * list event * result A)
  : World * list event * result A :=
  match o with (w, t', r) => (w, t ++ t', r) end.

(** Projections of an outcome. *)
Definition world_of {World A} (o : World * list event * result A) : World := o.1.1.
Definition events_of {World A} (o : World * list event * result A) : list event := o.1.2.
Definition result_of {World A} (o : World * list event * result A) : result A := o.2.

(** ** The pipeline *)

(** Labels to process. *)
Definition LABELS_TO_PROCESS : list pystr :=
  [lit "Leads_New"; lit "Clients_OpenQuestions"; lit "Finance_Bookings";
   lit "Event_Changes"].

(** A line feed, written [\n] in the source. *)
Definition LF : pystr := [10].

(** [not x] for an optional string: [None] and the empty string are
    false values. *)
Definition falsy (x : option pystr) : bool :=
  match x with
  | None | Some [] => true
  | Some (_ :: _) => false
  end.

(** The prompt of [generate_reply], an f-string over the three fields. *)
Definition prompt_of (sender subject body_snippet : pystr) : pystr :=
  lit "You are an assistant drafting polite, professional email replies for a "
  ++ lit "photo booth rental company named PhoBoCo. Use the email below as context." ++ LF
  ++ lit "From: " ++ sender ++ LF
  ++ lit "Subject: " ++ subject ++ LF
  ++ lit "Message snippet:" ++ LF
  ++ body_snippet ++ LF ++ LF
  ++ lit "Craft a concise, friendly response addressing the sender's points and "
  ++ lit "acknowledging their inquiry. Sign off as 'PhoBoCo Team'.".

(** The request [generate_reply] sends for a prompt. *)
Definition chat_request_of (prompt : pystr) : chat_request :=
  {| chat_model := lit "gpt-3.5-turbo";
     chat_messages := [ {| role := lit "user"; content := prompt |} ];
     chat_max_tokens := 250;
     chat_temperature := 1 # 2 |}.

Definition missing_key_error : exn :=
  RuntimeError
    (lit "OPENAI_API_KEY environment variable not set. Please set it before running.").

(** [{h["name"]: h["value"] for h in hs}]: a later header of the same
    name replaces an earlier one. *)
Definition header_dict (hs : list header) : gmap pystr pystr :=
  foldl (fun d h => <[name h := value h]> d) ∅ hs.

(** The fields [process_unread_messages] reads from a fetched message:
    the Subject and From headers and the snippet, each with the empty
    string as its default. *)
Definition subject_of (full_msg : message_resource) : pystr :=
  default [] (header_dict (default [] (headers (payload full_msg))) !! lit "Subject").

Definition sender_of (full_msg : message_resource) : pystr :=
  default [] (header_dict (default [] (headers (payload full_msg))) !! lit "From").

Definition snippet_of (full_msg : message_resource) : pystr :=
  default [] (snippet full_msg).

Section Pipeline.

Context {World : Type} (service : Services World) (email : EmailLib).

Definition generate_reply (sender subject body_snippet : pystr) : M World pystr :=
  let api_key := environ service !! lit "OPENAI_API_KEY" in
  if falsy api_key then raise missing_key_error
  else
    let prompt := prompt_of sender subject body_snippet in
    let request := chat_request_of prompt in
    response ← call (ChatCompletionCreate request)
      (fun w =>
         match chat_completion_create service request w with
         | (w1, inl detail) => (w1, Raise (OpenAIError detail))
         | (w1, inr response) => (w1, Ok response)
         end);
    match choices response with
    | [] => raise (IndexError (lit "list index out of range"))
    | choice :: _ =>
        let reply_text := strip (content (message choice)) in
        ret reply_text
    end.

Definition user_id : pystr := lit "me".

(** The three requests to Gmail, with the arguments the script gives. *)
Definition list_request_of (label : pystr) : list_request :=
  {| list_userId := user_id; list_labelIds := [label]; list_q := lit "is:unread" |}.

Definition get_request_of (msg_id : pystr) : get_request :=
  {| get_userId := user_id; get_id := msg_id; get_format := lit "metadata";
     get_metadataHeaders := [lit "Subject"; lit "From"] |}.

Definition draft_request_of (draft_message : draft) : draft_request :=
  {| draft_userId := user_id; draft_body_message := draft_message |}.

(** The body of the loop over the messages of a label. *)
Definition process_message (message : message_ref) : M World unit :=
  let msg_id := id message in
  full_msg ← call (MessagesGet (get_request_of msg_id))
                  (messages_get service (get_request_of msg_id));
  let headers := header_dict (default [] (headers (payload full_msg))) in
  let subject := default [] (headers !! lit "Subject") in
  let sender := default [] (headers !! lit "From") in
  let snippet := default [] (snippet full_msg) in
  reply_body ← generate_reply sender subject snippet;
  draft_message ← lift (create_message email user_id sender subject reply_body);
  call (DraftsCreate (draft_request_of draft_message))
       (drafts_create service (draft_request_of draft_message)).

(** The body of [try] for one label. *)
Definition process_label (label : pystr) : M World unit :=
  response ← call (MessagesList (list_request_of label))
                  (messages_list service (list_request_of label));
  let messages := default [] (messages response) in
  for_each messages process_message.

(** The line printed by the handler of [except HttpError as error]. *)
Definition label_error_line (label : pystr) (error : exn) : pystr :=
  lit "An error occurred processing label " ++ label ++ lit ": " ++ exn_str error.

(** One turn of the loop over the labels: the [try] statement. *)
Definition try_label (label : pystr) : M World unit :=
  try_except (process_label label) is_HttpError
    (fun error => print (label_error_line label error)).

Definition process_labels (labels : list pystr) : M World unit :=
  for_each labels try_label.

Definition process_unread_messages : M World unit :=
  process_labels LABELS_TO_PROCESS.

End Pipeline.

(** ** Concrete surroundings

    A small mailbox and an instance of the [email] package, on which the
    statements below are exercised. *)

(** A double quote. *)
Definition DQUOTE : pystr := [34].

(** *** Encoded words in a header text

    The default policy parses the text assigned to a Subject as an
    unstructured header, and an RFC 2047 encoded word in it is replaced
    by the text it encodes: [msg["Subject"]] and the rendered message
    carry the decoded text.  The model covers the words that stand alone
    between white space, are written [=?charset?b?...?=] or
    [=?charset?q?...?=] with the charset utf-8 or us-ascii, and encode
    printable ASCII; on the texts in which every [=?] opens such a word
    it agrees with CPython 3.11.  The package also decodes words that
    touch other text, other charsets and damaged payloads; there the
    model leaves the text as it is, and no statement below depends on
    it. *)

(** White space between the words of a header. *)
Definition is_WSP (c : char) : bool := (c =? 32) || (c =? 9).

(** Printable ASCII, the space included. *)
Definition is_printable (c : char) : bool := (32 <=? c) && (c <=? 126).

(** The text holds [=?], the opening of an encoded word. *)
Fixpoint mentions_word (s : pystr) : bool :=
  match s with
  | c :: s' =>
      match s' with
      | d :: _ => ((c =? 61) && (d =? 63)) || mentions_word s'
      | [] => false
      end
  | [] => false
  end.

(** The maximal runs of white space and of other characters, in order;
    the flag tells the runs of white space. *)
Fixpoint pieces (s : pystr) : list (bool * pystr) :=
  match s with
  | [] => []
  | c :: s' =>
      match pieces s' with
      | (gap, run) :: later =>
          if Bool.eqb gap (is_WSP c) then (gap, c :: run) :: later
          else (is_WSP c, [c]) :: (gap, run) :: later
      | [] => [(is_WSP c, [c])]
      end
  end.

(** [s.split(sep)] for a separator of one character. *)
Fixpoint split_on (sep : char) (s : pystr) : list pystr :=
  match s with
  | [] => [[]]
  | c :: s' =>
      if c =? sep then [] :: split_on sep s'
      else
        match split_on sep s' with
        | part :: parts => (c :: part) :: parts
        | [] => [[c]]
        end
  end.

(** [s.lower()] on ASCII letters. *)
Definition lower (s : pystr) : pystr :=
  List.map (fun c => if (65 <=? c) && (c <=? 90) then c + 32 else c) s.

Definition hex_value (c : char) : option N :=
  if (48 <=? c) && (c <=? 57) then Some (c - 48)
  else if (65 <=? c) && (c <=? 70) then Some (c - 55)
  else if (97 <=? c) && (c <=? 102) then Some (c - 87)
  else None.

(** The Q encoding read back: [_] is a space, [=XX] the byte with that
    hexadecimal value, any other character itself. *)
Fixpoint decode_q (s : pystr) : pystr :=
  match s with
  | [] => []
  | c :: s' =>
      let plain := (if c =? 95 then 32 else c) :: decode_q s' in
      match s' with
      | h :: l :: rest =>
          match hex_value h, hex_value l with
          | Some a, Some b => if c =? 61 then (16 * a + b) :: decode_q rest else plain
          | _, _ => plain
          end
      | _ => plain
      end
  end.

(** A Q payload the parser takes for the end of the word: it starts
    with [=] and no two hexadecimal digits follow. *)
Definition opens_badly (s : pystr) : bool :=
  match s with
  | 61 :: h :: l :: _ =>
      match hex_value h, hex_value l with
      | Some _, Some _ => false
      | _, _ => true
      end
  | 61 :: _ => true
  | _ => false
  end.

(** The text a word encodes, when the run [tok] is a word of the model. *)
Definition encoded_word (tok : pystr) : option pystr :=
  match split_on 63 tok with
  | [opening; charset; cte; payload; closing] =>
      if bool_decide (opening = [61]) && bool_decide (closing = [61])
         && (bool_decide (lower charset = lit "utf-8")
             || bool_decide (lower charset = lit "us-ascii"))
      then
        let decoded :=
          if bool_decide (lower cte = lit "b")
          then decode_ascii <$> b64decode (encode_ascii payload)
          else if bool_decide (lower cte = lit "q") && negb (opens_badly payload)
          then Some (decode_q payload)
          else None in
        match decoded with
        | Some text => if forallb is_printable text then Some text else None
        | None => None
        end
      else None
  | _ => None
  end.

(** The parts of a parsed header text: a decoded word, a run of white
    space, any other run. *)
Inductive part := Word (text : pystr) | Space (text : pystr) | Text (text : pystr).

Definition part_text (p : part) : pystr :=
  match p with Word text | Space text | Text text => text end.

Definition part_of (piece : bool * pystr) : part :=
  if piece.1 then Space piece.2
  else match encoded_word piece.2 with
       | Some text => Word text
       | None => Text piece.2
       end.

(** The parts put together again; the white space between two words
    does not count. *)
Fixpoint join_parts (parts : list part) : pystr :=
  match parts with
  | [] => []
  | p :: later =>
      match p, later with
      | Word text, Space _ :: ((Word _ :: _) as words) => text ++ join_parts words
      | _, _ => part_text p ++ join_parts later
      end
  end.

(** What the package keeps of a text assigned to an unstructured
    header. *)
Definition unstructured_value (text : pystr) : pystr :=
  join_parts (List.map part_of (pieces text)).

(** The text of a header as the package gives it back and renders it.
    Only the Subject is parsed in the model; for an address header the
    package renders the text of a plain address as it is (see
    [plain_address] below). *)
Definition header_value (name text : pystr) : pystr :=
  if bool_decide (name = lit "Subject") then unstructured_value text else text.

(** [msg["Subject"]]. *)
Definition subject_header (msg : EmailMessage) : option pystr :=
  unstructured_value <$> get_header (lit "Subject") (msg_headers msg).

(** *** An instance of the [email] package

    It refuses a header value of several lines, as the default policy
    does, and renders a message of short ASCII lines the way CPython
    3.11 does: one line per header with the text the package keeps of
    it, the headers [set_content] adds, an empty line, the body. *)

(** The line of a header, without its line end. *)
Definition header_line (name value : pystr) : pystr :=
  match value with
  | [] => name ++ lit ":"
  | _ => name ++ lit ": " ++ value
  end.

Definition render_header (h : pystr * pystr) : pystr :=
  header_line h.1 (header_value h.1 h.2) ++ LF.

(** [b'\n'.join(lines) + b'\n'], the body of a 7bit text. *)
Fixpoint join_lines (lines : list bytes) : bytes :=
  match lines with
  | [] => []
  | [line] => line
  | line :: rest => line ++ byte_of_N 10 :: join_lines rest
  end.

Definition normal_body (lines : list bytes) : bytes :=
  join_lines lines ++ [byte_of_N 10].

Definition plain_as_bytes (msg : EmailMessage) : result bytes :=
  match encode_utf8
          (concat (List.map render_header (msg_headers msg))
           ++ lit "Content-Type: text/plain; charset=" ++ DQUOTE ++ lit "utf-8" ++ DQUOTE ++ LF
           ++ lit "Content-Transfer-Encoding: 7bit" ++ LF
           ++ lit "MIME-Version: 1.0" ++ LF ++ LF) with
  | Some head => Ok (head ++ normal_body (default [] (msg_lines msg)))
  | None => Raise UnicodeEncodeError
  end.

Definition plain_email : EmailLib :=
  {| header_error := fun _ value =>
       if (1 <? length (str_splitlines value))%nat then
         Some (ValueError
                 (lit "Header values may not contain linefeed or carriage return characters"))
       else None;
     as_bytes := plain_as_bytes |}.

(** *** Reading a rendered message

    What [email.message_from_bytes] reads from a message whose headers
    are not folded: the header lines up to the first empty line, each a
    name, a colon and the value after the white space that follows the
    colon; the body is what comes after the empty line.  [cur] is the
    line read so far, last byte first. *)
Fixpoint split_head (cur bs : bytes) : list bytes * bytes :=
  match bs with
  | [] => (match cur with [] => [] | _ => [rev cur] end, [])
  | b :: rest =>
      if is_LF b then
        match cur with
        | [] => ([], rest)
        | _ => let (lines, body) := split_head [] rest in (rev cur :: lines, body)
        end
      else split_head (b :: cur) rest
  end.

Fixpoint lstrip_WSP (s : pystr) : pystr :=
  match s with
  | c :: s' => if is_WSP c then lstrip_WSP s' else s
  | [] => []
  end.

(** The name and the value of a header line. *)
Fixpoint field_of (line : pystr) : pystr * pystr :=
  match line with
  | [] => ([], [])
  | c :: rest =>
      if c =? 58 then ([], lstrip_WSP rest)
      else let (name, value) := field_of rest in (c :: name, value)
  end.

Definition read_headers (rendered : bytes) : list (pystr * pystr) :=
  List.map (fun line => field_of (decode_ascii line)) (split_head [] rendered).1.

Definition read_header (name : pystr) (rendered : bytes) : option pystr :=
  get_header name (read_headers rendered).

Definition read_body (rendered : bytes) : bytes := (split_head [] rendered).2.

(** *** Plain messages

    The texts that the [email] package of CPython 3.11 renders as they
    are, one line per header and the body as 7bit text: nothing is
    folded, quoted or encoded. *)

Definition plain_text (s : pystr) : bool := forallb is_printable s.

(** A subject: printable ASCII without the opening of an encoded word,
    short enough for the line [Subject: Re: ...] to stay within 78
    characters. *)
Definition plain_subject (s : pystr) : bool :=
  plain_text s && negb (mentions_word s) && (length s <=? 65)%nat.

(** A word of letters, digits, [-] and [_]. *)
Definition is_atom (s : pystr) : bool :=
  match s with
  | [] => false
  | _ =>
      forallb (fun c => ((65 <=? c) && (c <=? 90)) || ((97 <=? c) && (c <=? 122))
                        || ((48 <=? c) && (c <=? 57)) || (c =? 45) || (c =? 95)) s
  end.

(** [local@domain], both sides words joined by single dots. *)
Definition is_addr_spec (s : pystr) : bool :=
  match split_on 64 s with
  | [local; domain] =>
      forallb is_atom (split_on 46 local) && forallb is_atom (split_on 46 domain)
  | _ => false
  end.

(** [<local@domain>]. *)
Definition is_angle_addr (s : pystr) : bool :=
  match s with
  | 60 :: s' =>
      match rev s' with
      | 62 :: inner => is_addr_spec (rev inner)
      | _ => false
      end
  | _ => false
  end.

(** An address header: empty, a bare address, or words separated by
    single spaces of which the last may be an address in angle
    brackets; short enough for the header to stay on one line. *)
Definition plain_address (s : pystr) : bool :=
  plain_text s
  && (length s <=? 72)%nat
  && (match s with [] => true | _ => false end
      || is_addr_spec s
      || match rev (split_on 32 s) with
         | final :: words => (is_atom final || is_angle_addr final) && forallb is_atom words
         | [] => false
         end).

(** A body of ASCII characters in lines of at most 78. *)
Definition plain_body (text : pystr) : bool :=
  forallb (fun c => c <? 128) text
  && forallb (fun line => (length line <=? 78)%nat) (bytes_splitlines (encode_ascii text)).

(** A line without a line end in it. *)
Definition no_line_end (line : bytes) : bool :=
  forallb (fun b => negb (is_CR b || is_LF b)) line.

(** The lines that [set_content] adds to the head of a plain message,
    and the fields read from them. *)
Definition content_lines : pystr :=
  lit "Content-Type: text/plain; charset=" ++ DQUOTE ++ lit "utf-8" ++ DQUOTE ++ LF
  ++ lit "Content-Transfer-Encoding: 7bit" ++ LF
  ++ lit "MIME-Version: 1.0" ++ LF ++ LF.

Definition content_fields : list (pystr * pystr) :=
  [(lit "Content-Type", lit "text/plain; charset=" ++ DQUOTE ++ lit "utf-8" ++ DQUOTE);
   (lit "Content-Transfer-Encoding", lit "7bit");
   (lit "MIME-Version", lit "1.0")].

(** A scripted mailbox: the answer of [list] for each label, of [get] for
    each message id, of the chat endpoint, and the environment.  The
    world is the list of the drafts stored so far. *)
Record mailbox := {
  mb_environ : gmap pystr pystr;
  mb_list : pystr -> result list_response;
  mb_get : pystr -> result message_resource;
  mb_chat : chat_request -> pystr + chat_response;
}.

Definition mailbox_services (mb : mailbox) : Services (list draft) :=
  {| environ := mb_environ mb;
     messages_list := fun r w =>
       (w, match list_labelIds r with
           | [label] => mb_list mb label
           | _ => Raise (HttpError (lit "400"))
           end);
     messages_get := fun r w => (w, mb_get mb (get_id r));
     drafts_create := fun r w => (w ++ [draft_body_message r], Ok tt);
     chat_completion_create := fun r w => (w, mb_chat mb r) |}.

Definition with_key : gmap pystr pystr :=
  {[ lit "OPENAI_API_KEY" := lit "sk-test" ]}.

Definition without_key : gmap pystr pystr := ∅.

Definition jane : message_resource :=
  {| payload :=
       {| headers :=
            Some [ {| name := lit "Subject"; value := lit "Booth availability?" |};
                   {| name := lit "From"; value := lit "Jane Doe <jane@example.com>" |} ] |};
     snippet := Some (lit "Hi, do you have a booth for June 5th?") |}.

(** A message whose metadata carries no header at all. *)
Definition bare : message_resource :=
  {| payload := {| headers := None |}; snippet := Some (lit "ping") |}.

Definition no_messages : list_response := {| messages := None |}.

Definition one_message (msg_id : pystr) : list_response :=
  {| messages := Some [ {| id := msg_id |} ] |}.

Definition answer (text : pystr) : pystr + chat_response :=
  inr {| choices := [ {| message := {| role := lit "assistant"; content := text |} |} ] |}.

Definition reply_text : pystr :=
  LF ++ lit "  Hello Jane, yes we do. PhoBoCo Team " ++ LF.

(** Leads_New holds one unread message, the other labels none. *)
Definition leads_only (env : gmap pystr pystr) (chat : pystr + chat_response) : mailbox :=
  {| mb_environ := env;
     mb_list := fun label =>
       if decide (label = lit "Leads_New") then Ok (one_message (lit "m1"))
       else Ok no_messages;
     mb_get := fun msg_id =>
       if decide (msg_id = lit "m1") then Ok jane
       else Raise (HttpError (lit "404"));
     mb_chat := fun _ => chat |}.

(** The scan of Leads_New fails, Clients_OpenQuestions holds one unread
    message. *)
Definition leads_down : mailbox :=
  {| mb_environ := with_key;
     mb_list := fun label =>
       if decide (label = lit "Leads_New") then Raise (HttpError (lit "503"))
       else if decide (label = lit "Clients_OpenQuestions") then Ok (one_message (lit "m2"))
       else Ok no_messages;
     mb_get := fun msg_id =>
       if decide (msg_id = lit "m2") then Ok jane
       else Raise (HttpError (lit "404"));
     mb_chat := fun _ => answer reply_text |}.

(** Leads_New holds two unread messages; fetching the first one fails. *)
Definition first_fetch_fails : mailbox :=
  {| mb_environ := with_key;
     mb_list := fun label =>
       if decide (label = lit "Leads_New")
       then Ok {| messages := Some [ {| id := lit "gone" |}; {| id := lit "m1" |} ] |}
       else Ok no_messages;
     mb_get := fun msg_id =>
       if decide (msg_id = lit "m1") then Ok jane
       else Raise (HttpError (lit "404"));
     mb_chat := fun _ => answer reply_text |}.

(** Leads_New holds one unread message without headers. *)
Definition leads_bare : mailbox :=
  {| mb_environ := with_key;
     mb_list := fun label =>
       if decide (label = lit "Leads_New") then Ok (one_message (lit "m3"))
       else Ok no_messages;
     mb_get := fun _ => Ok bare;
     mb_chat := fun _ => answer reply_text |}.

(** The draft a composition returned. *)
Definition composed (r : result draft) : draft :=
  match r with Ok d => d | Raise _ => {| raw := [] |} end.

(** The reply to Jane once stripped, and the drafts composed with it. *)
Definition jane_reply : pystr := lit "Hello Jane, yes we do. PhoBoCo Team".

Definition jane_draft : draft :=
  composed (create_message plain_email (lit "me") (lit "Jane Doe <jane@example.com>")
              (lit "Booth availability?") jane_reply).

Definition bare_draft : draft :=
  composed (create_message plain_email (lit "me") [] [] jane_reply).

(** Events that are neither a generation request nor a draft creation. *)
Definition no_generation_no_draft (ev : event) : Prop :=
  match ev with
  | ChatCompletionCreate _ | DraftsCreate _ => False
  | MessagesList _ | MessagesGet _ | Print _ => True
  end.

(** A string that neither starts nor ends with white space. *)
Definition trimmed (s : pystr) : bool :=
  match s with c :: _ => negb (is_space c) | [] => true end
  && match rev s with c :: _ => negb (is_space c) | [] => true end.

(** The metadata of a message carries no header called [n]. *)
Definition header_absent (n : pystr) (full_msg : message_resource) : Prop :=
  Forall (fun h => name h <> n) (default [] (headers (payload full_msg))).

(** [d] is the draft resource of the message [msg]: its [raw] field is
    the URL-safe base64 text of the rendered message. *)
Definition draft_of_message (email : EmailLib) (msg : EmailMessage) (d : draft) : Prop :=
  exists bs, as_bytes email msg = Ok bs /\ raw d = decode_ascii (urlsafe_b64encode bs).

(** What is known of a draft that [process_message] stores: it was
    composed for the account [me] from the fields of the message that
    was fetched. *)
Definition stored_for {World} (service : Services World) (email : EmailLib)
    (ref : message_ref) (w : World) (ev : event) : Prop :=
  match ev with
  | DraftsCreate r =>
      draft_userId r = user_id
      /\ exists w1 full_msg reply_body,
          messages_get service (get_request_of (id ref)) w = (w1, Ok full_msg)
          /\ create_message email user_id (sender_of full_msg) (subject_of full_msg)
               reply_body = Ok (draft_body_message r)
  | _ => True
  end.

(** The same, for a draft stored anywhere in a run. *)
Definition stored_by_run (email : EmailLib) (ev : event) : Prop :=
  match ev with
  | DraftsCreate r =>
      draft_userId r = user_id
      /\ exists to_email subject reply_body,
          create_message email user_id to_email subject reply_body
          = Ok (draft_body_message r)
  | _ => True
  end.

(** ** Credentials: [get_gmail_service] and [main] *)

(** If modifying these scopes, delete the token.json file. *)
Definition SCOPES : list pystr :=
  [lit "https://www.googleapis.com/auth/gmail.modify"].

(** What [get_gmail_service] does to the outside: the file system, the
    OAuth client of Google and the discovery service.  [Creds] is a
    [Credentials] object in one of its states ([refresh] changes the
    object in place: the answer of [creds_refresh] is the state it
    leaves), [Resource] the Gmail service object. *)
Inductive auth_event (Creds : Type) :=
| PathExists (path : pystr)
| FromAuthorizedUserFile (path : pystr) (scopes : list pystr)
| CredsRefresh (creds : Creds)
| FromClientSecretsFile (path : pystr) (scopes : list pystr)
| RunLocalServer (port : N)
| WriteText (path content : pystr)
| Build (serviceName version : pystr) (credentials : Creds).
Arguments PathExists {Creds} path.
Arguments FromAuthorizedUserFile {Creds} path scopes.
Arguments CredsRefresh {Creds} creds.
Arguments FromClientSecretsFile {Creds} path scopes.
Arguments RunLocalServer {Creds} port.
Arguments WriteText {Creds} path content.
Arguments Build {Creds} serviceName version credentials.

(** The libraries [get_gmail_service] calls.  [creds_valid] and
    [creds_expired] are the properties [valid] and [expired], which read
    the clock of the world; [creds_refresh_token] is the attribute
    [refresh_token]; [write_text path text] is the [with open(path, "w")]
    block that writes [text]. *)
Record AuthLib (World Creds Flow Resource : Type) := {
  path_exists : pystr -> World -> bool;
  from_authorized_user_file : pystr -> list pystr -> World -> World * result Creds;
  creds_valid : Creds -> World -> bool;
  creds_expired : Creds -> World -> bool;
  creds_refresh_token : Creds -> option pystr;
  creds_refresh : Creds -> World -> World * result Creds;
  from_client_secrets_file : pystr -> list pystr -> World -> World * result Flow;
  run_local_server : Flow -> N -> World -> World * result Creds;
  creds_to_json : Creds -> pystr;
  write_text : pystr -> pystr -> World -> World * result unit;
  build : pystr -> pystr -> Creds -> World -> World * result Resource;
}.
Arguments path_exists {World Creds Flow Resource} _ _ _.
Arguments from_authorized_user_file {World Creds Flow Resource} _ _ _ _.
Arguments creds_valid {World Creds Flow Resource} _ _ _.
Arguments creds_expired {World Creds Flow Resource} _ _ _.
Arguments creds_refresh_token {World Creds Flow Resource} _ _.
Arguments creds_refresh {World Creds Flow Resource} _ _ _.
Arguments from_client_secrets_file {World Creds Flow Resource} _ _ _ _.
Arguments run_local_server {World Creds Flow Resource} _ _ _ _.
Arguments creds_to_json {World Creds Flow Resource} _ _.
Arguments write_text {World Creds Flow Resource} _ _ _ _.
Arguments build {World Creds Flow Resource} _ _ _ _ _.

(** Computations that emit events of a type [E]. *)
Definition Run (E World A : Type) : Type := World -> World * list E * result A.

Section Steps.

Context {E World : Type}.

Definition run_ret {A} (a : A) : Run E World A := fun w => (w, [], Ok a).

Definition run_bind {A B} (m : Run E World A) (k : A -> Run E World B) : Run E World B :=
  fun w =>
    match m w with
    | (w1, t1, Ok a) =>
        match k a w1 with (w2, t2, r) => (w2, t1 ++ t2, r) end
    | (w1, t1, Raise e) => (w1, t1, Raise e)
    end.

(** One call to the outside, recorded as [ev]. *)
Definition run_call {A} (ev : E) (f : World -> World * result A) : Run E World A :=
  fun w => match f w with (w1, r) => (w1, [ev], r) end.

(** Reading a value off the world, which stays as it is. *)
Definition run_read {A} (f : World -> A) : Run E World A := fun w => (w, [], Ok (f w)).

End Steps.

Section Auth.

Context {World Creds Flow Resource : Type} (lib : AuthLib World Creds Flow Resource).

(** [build("gmail", "v1", credentials=creds)], the last statement. *)
Definition build_service (creds : Creds) : Run (auth_event Creds) World Resource :=
  run_call (Build (lit "gmail") (lit "v1") creds)
    (build lib (lit "gmail") (lit "v1") creds).

(** Save the credentials for the next run, then build the service. *)
Definition save_and_build (creds : Creds) : Run (auth_event Creds) World Resource :=
  run_bind
    (run_call (WriteText (lit "token.json") (creds_to_json lib creds))
       (write_text lib (lit "token.json") (creds_to_json lib creds)))
    (fun _ => build_service creds).

(** The [else] branch: let the user log in. *)
Definition log_in : Run (auth_event Creds) World Resource :=
  run_bind
    (run_call (FromClientSecretsFile (lit "credentials.json") SCOPES)
       (from_client_secrets_file lib (lit "credentials.json") SCOPES))
    (fun flow =>
       run_bind (run_call (RunLocalServer 0) (run_local_server lib flow 0))
         save_and_build).

(** [creds and creds.expired and creds.refresh_token] for credentials
    that were loaded. *)
Definition can_refresh (creds : Creds) (w : World) : bool :=
  creds_expired lib creds w && negb (falsy (creds_refresh_token lib creds)).

(** The function, with [creds] either [None] (no token.json) or the
    credentials loaded from it.  [not creds or not creds.valid] is false
    only for loaded credentials that are valid. *)
Definition get_gmail_service : Run (auth_event Creds) World Resource :=
  run_bind
    (run_call (PathExists (lit "token.json"))
       (fun w => (w, Ok (path_exists lib (lit "token.json") w))))
    (fun found =>
       if found : bool then
         run_bind
           (run_call (FromAuthorizedUserFile (lit "token.json") SCOPES)
              (from_authorized_user_file lib (lit "token.json") SCOPES))
           (fun creds =>
              run_bind (run_read (creds_valid lib creds))
                (fun valid =>
                   if valid : bool then build_service creds
                   else
                     run_bind (run_read (can_refresh creds))
                       (fun refreshable =>
                          if refreshable : bool then
                            run_bind
                              (run_call (CredsRefresh creds) (creds_refresh lib creds))
                              save_and_build
                          else log_in)))
       else log_in).

End Auth.

(** [main]: the service is built, then the unread messages are
    processed with it.  [connect resource] is what the Gmail calls made
    through [resource] answer, beside the environment and the chat
    endpoint of the process. *)
Definition main {World Creds Flow Resource : Type}
    (lib : AuthLib World Creds Flow Resource)
    (connect : Resource -> Services World) (email : EmailLib)
  : Run (auth_event Creds + event) World unit :=
  fun w =>
    match get_gmail_service lib w with
    | (w1, t1, Ok service) =>
        match process_unread_messages (connect service) email w1 with
        | (w2, t2, r) => (w2, List.map inl t1 ++ List.map inr t2, r)
        end
    | (w1, t1, Raise e) => (w1, List.map inl t1, Raise e)
    end.

(** ** Reading a trace *)

(** The list calls of a trace, in order. *)
Fixpoint list_calls (t : list event) : list list_request :=
  match t with
  | [] => []
  | MessagesList r :: t' => r :: list_calls t'
  | _ :: t' => list_calls t'
  end.

(** The number of events of a trace that pass a test. *)
Fixpoint count_events (p : event -> bool) (t : list event) : nat :=
  match t with
  | [] => 0%nat
  | ev :: t' => ((if p ev then 1 else 0) + count_events p t')%nat
  end.

Definition is_get (ev : event) : bool :=
  match ev with MessagesGet _ => true | _ => false end.
Definition is_chat (ev : event) : bool :=
  match ev with ChatCompletionCreate _ => true | _ => false end.
Definition is_draft (ev : event) : bool :=
  match ev with DraftsCreate _ => true | _ => false end.
Definition is_print (ev : event) : bool :=
  match ev with Print _ => true | _ => false end.

(** A printed line is the error line of one of [labels], for an
    [HttpError]. *)
Definition printed_for (labels : list pystr) (ev : event) : Prop :=
  match ev with
  | Print line =>
      exists label detail,
        In label labels /\ line = label_error_line label (HttpError detail)
  | _ => True
  end.

(** Each generation request of a trace has a fetch before it that is its
    own, each draft a generation request: drafts, requests and fetches
    in non-decreasing number. *)
Definition store_after_generate_after_fetch (t : list event) : Prop :=
  (count_events is_draft t <= count_events is_chat t)%nat
  /\ (count_events is_chat t <= count_events is_get t)%nat.

(** Further mailboxes: no unread message anywhere; every scan refused;
    the mail service out of reach; a message whose subject has two
    lines. *)
Definition all_read : mailbox :=
  {| mb_environ := without_key;
     mb_list := fun _ => Ok {| messages := Some [] |};
     mb_get := fun _ => Raise (HttpError (lit "404"));
     mb_chat := fun _ => answer reply_text |}.

Definition all_refused : mailbox :=
  {| mb_environ := with_key;
     mb_list := fun _ => Raise (HttpError (lit "403"));
     mb_get := fun _ => Raise (HttpError (lit "404"));
     mb_chat := fun _ => answer reply_text |}.

Definition unreachable : mailbox :=
  {| mb_environ := with_key;
     mb_list := fun _ => Raise (OtherException (lit "ServerNotFoundError")
                                  (lit "Unable to find the server at gmail.googleapis.com"));
     mb_get := fun _ => Raise (HttpError (lit "404"));
     mb_chat := fun _ => answer reply_text |}.

Definition two_lines : message_resource :=
  {| payload :=
       {| headers :=
            Some [ {| name := lit "Subject"; value := lit "Booth" ++ LF ++ lit "availability?" |};
                   {| name := lit "From"; value := lit "Jane Doe <jane@example.com>" |} ] |};
     snippet := Some (lit "Hi") |}.

Definition leads_two_lines : mailbox :=
  {| mb_environ := with_key;
     mb_list := fun label =>
       if decide (label = lit "Leads_New") then Ok (one_message (lit "m4"))
       else Ok no_messages;
     mb_get := fun _ => Ok two_lines;
     mb_chat := fun _ => answer reply_text |}.

(** The mail service cannot be reached while Leads_New is scanned (the
    transport raises [httplib2.ServerNotFoundError], which is no
    [HttpError]); Clients_OpenQuestions holds one unread message. *)
Definition server_not_found : exn :=
  OtherException (lit "ServerNotFoundError")
    (lit "Unable to find the server at gmail.googleapis.com").

Definition leads_unreachable : mailbox :=
  {| mb_environ := with_key;
     mb_list := fun label =>
       if decide (label = lit "Leads_New") then Raise server_not_found
       else if decide (label = lit "Clients_OpenQuestions") then Ok (one_message (lit "m2"))
       else Ok no_messages;
     mb_get := fun msg_id =>
       if decide (msg_id = lit "m2") then Ok jane
       else Raise (HttpError (lit "404"));
     mb_chat := fun _ => answer reply_text |}.

(** A message whose subject holds an encoded word for [Hello]. *)
Definition encoded_subject : pystr := lit "=?utf-8?b?SGVsbG8=?= world".

Definition encoded : message_resource :=
  {| payload :=
       {| headers :=
            Some [ {| name := lit "Subject"; value := encoded_subject |};
                   {| name := lit "From"; value := lit "Jane Doe <jane@example.com>" |} ] |};
     snippet := Some (lit "Hi") |}.

Definition leads_encoded : mailbox :=
  {| mb_environ := with_key;
     mb_list := fun label =>
       if decide (label = lit "Leads_New") then Ok (one_message (lit "m5"))
       else Ok no_messages;
     mb_get := fun _ => Ok encoded;
     mb_chat := fun _ => answer reply_text |}.

(** ** Reading headers and texts *)

(** The value of the last header called [n], if there is one. *)
Fixpoint last_header (n : pystr) (hs : list header) : option pystr :=
  match hs with
  | [] => None
  | h :: hs' =>
      match last_header n hs' with
      | Some v => Some v
      | None => if decide (name h = n) then Some (value h) else None
      end
  end.

(** A code point UTF-8 can carry: below 0x110000 and no surrogate. *)
Definition is_scalar (c : char) : bool :=
  (c <? 1114112) && negb ((55296 <=? c) && (c <=? 57343)).

(** A character of URL-safe base64 text: a letter, a digit, [-], [_] or
    the padding [=]. *)
Definition is_urlsafe_char (c : char) : bool :=
  ((65 <=? c) && (c <=? 90)) || ((97 <=? c) && (c <=? 122))
  || ((48 <=? c) && (c <=? 57)) || (c =? 45) || (c =? 95) || (c =? 61).

(** ** Scripted credentials *)

(** Credentials as the scripts below see them, and a script for the
    libraries of [get_gmail_service]: what token.json holds if it is
    there, what a refresh and a log-in answer.  Writing and building
    always succeed, the resource is the credentials it was built
    with. *)
Record stored_creds := {
  sc_token : pystr;
  sc_valid : bool;
  sc_expired : bool;
  sc_refresh_token : option pystr;
}.

Record auth_script := {
  token_file : option stored_creds;
  refresh_answer : result stored_creds;
  login_answer : result stored_creds;
}.

Definition scripted_auth {World : Type} (s : auth_script)
  : AuthLib World stored_creds unit stored_creds :=
  {| path_exists := fun _ _ => match token_file s with Some _ => true | None => false end;
     from_authorized_user_file := fun _ _ w =>
       (w, match token_file s with
           | Some creds => Ok creds
           | None => Raise (OtherException (lit "FileNotFoundError") (lit "token.json"))
           end);
     creds_valid := fun creds _ => sc_valid creds;
     creds_expired := fun creds _ => sc_expired creds;
     creds_refresh_token := sc_refresh_token;
     creds_refresh := fun _ w => (w, refresh_answer s);
     from_client_secrets_file := fun _ _ w => (w, Ok tt);
     run_local_server := fun _ _ w => (w, login_answer s);
     creds_to_json := sc_token;
     write_text := fun _ _ w => (w, Ok tt);
     build := fun _ _ creds w => (w, Ok creds) |}.

Definition good_creds : stored_creds :=
  {| sc_token := lit "ya29.good"; sc_valid := true; sc_expired := false;
     sc_refresh_token := Some (lit "1//refresh") |}.

Definition expired_creds : stored_creds :=
  {| sc_token := lit "ya29.old"; sc_valid := false; sc_expired := true;
     sc_refresh_token := Some (lit "1//refresh") |}.

Definition dead_creds : stored_creds :=
  {| sc_token := lit "ya29.dead"; sc_valid := false; sc_expired := true;
     sc_refresh_token := None |}.

Definition refresh_error : exn :=
  OtherException (lit "RefreshError") (lit "invalid_grant").

(** * Properties *)

(** ** Sequencing, loops and handlers *)

Ltac unfold_bind :=
  unfold mbind, M_bind, result_bind, mret, M_ret, result_ret in *.

Section MonadFacts.

Context {World : Type}.

Lemma bind_Ok {A B} (m : M World A) (k : A -> M World B) w w1 t1 a :
  m w = (w1, t1, Ok a) -> bind m k w = after t1 (k a w1).
Proof. intros Hm. unfold bind, after. rewrite Hm. reflexivity. Qed.

Lemma bind_Raise {A B} (m : M World A) (k : A -> M World B) w w1 t1 e :
  m w = (w1, t1, Raise e) -> bind m k w = (w1, t1, Raise e).
Proof. intros Hm. unfold bind. rewrite Hm. reflexivity. Qed.

Lemma after_nil {A} (o : World * list event * result A) : after [] o = o.
Proof. destruct o as [[w t] r]. reflexivity. Qed.

Lemma after_after {A} t1 t2 (o : World * list event * result A) :
  after t1 (after t2 o) = after (t1 ++ t2) o.
Proof. destruct o as [[w t] r]. simpl. now rewrite <- app_assoc. Qed.

Lemma events_of_after {A} t (o : World * list event * result A) :
  events_of (after t o) = t ++ events_of o.
Proof. destruct o as [[w t'] r]. reflexivity. Qed.

Lemma result_of_after {A} t (o : World * list event * result A) :
  result_of (after t o) = result_of o.
Proof. destruct o as [[w t'] r]. reflexivity. Qed.

(** A failing turn ends the loop: the elements after it are not visited. *)
Lemma for_each_raise {A} (body : A -> M World unit) x xs w w1 t e :
  body x w = (w1, t, Raise e) -> for_each (x :: xs) body w = (w1, t, Raise e).
Proof. intros Hb. simpl. now apply bind_Raise. Qed.

Lemma for_each_ok {A} (body : A -> M World unit) x xs w w1 t u :
  body x w = (w1, t, Ok u) ->
  for_each (x :: xs) body w = after t (for_each xs body w1).
Proof. intros Hb. simpl. now rewrite (bind_Ok _ _ _ _ _ _ Hb). Qed.

Lemma for_each_app {A} (body : A -> M World unit) before rest w w1 t u :
  for_each before body w = (w1, t, Ok u) ->
  for_each (before ++ rest) body w = after t (for_each rest body w1).
Proof.
  revert w t. induction before as [|x before IH]; intros w t Hrun.
  - simpl in Hrun. unfold ret in Hrun. injection Hrun as <- <- _.
    now rewrite after_nil.
  - simpl in Hrun |- *. unfold bind in Hrun |- *.
    destruct (body x w) as [[wx tx] [ux|ex]]; [|discriminate].
    specialize (IH wx).
    destruct (for_each before body wx) as [[wb tb] rb] eqn:Hb.
    injection Hrun as <- <- ->.
    rewrite (IH tb eq_refl).
    destruct (for_each rest body wb) as [[wr tr] rr]. simpl.
    now rewrite app_assoc.
Qed.

Lemma for_each_app_raise {A} (body : A -> M World unit) before x later w w1 t1 u w2 t2 e :
  for_each before body w = (w1, t1, Ok u) ->
  body x w1 = (w2, t2, Raise e) ->
  for_each (before ++ x :: later) body w = (w2, t1 ++ t2, Raise e).
Proof.
  intros Hbefore Hx. rewrite (for_each_app _ _ _ _ _ _ _ Hbefore).
  now rewrite (for_each_raise _ _ _ _ _ _ _ Hx).
Qed.

(** The events of a sequence all satisfy [P] when those of its parts do. *)
Lemma events_bind {A B} (P : event -> Prop) (m : M World A) (k : A -> M World B) w :
  Forall P (events_of (m w)) ->
  (forall a w1, Forall P (events_of (k a w1))) ->
  Forall P (events_of (bind m k w)).
Proof.
  intros Hm Hk. unfold bind.
  destruct (m w) as [[w1 t1] [a|e]]; [|exact Hm].
  specialize (Hk a w1). destruct (k a w1) as [[w2 t2] r].
  unfold events_of in *. simpl in *. apply Forall_app. now split.
Qed.

Lemma events_for_each {A} (P : event -> Prop) (body : A -> M World unit) xs :
  (forall x w, Forall P (events_of (body x w))) ->
  forall w, Forall P (events_of (for_each xs body w)).
Proof.
  intros Hbody. induction xs as [|x xs IH]; intros w.
  - constructor.
  - simpl. apply events_bind; auto.
Qed.

Lemma events_try_except {A} (P : event -> Prop) (m : M World A) catches handler w :
  Forall P (events_of (m w)) ->
  (forall e w1, Forall P (events_of (handler e w1))) ->
  Forall P (events_of (try_except m catches handler w)).
Proof.
  intros Hm Hh. unfold try_except.
  destruct (m w) as [[w1 t1] [a|e]]; [exact Hm|].
  destruct (catches e); [|exact Hm].
  specialize (Hh e w1). destruct (handler e w1) as [[w2 t2] r].
  unfold events_of in *. simpl in *. apply Forall_app. now split.
Qed.

Lemma events_call {A} (P : event -> Prop) ev (f : World -> World * result A) w :
  P ev -> Forall P (events_of (call ev f w)).
Proof.
  intros Hev. unfold call. destruct (f w) as [w1 r].
  unfold events_of. simpl. now constructor.
Qed.

End MonadFacts.

(** ** The steps of the pipeline *)

Section PipelineFacts.

Context {World : Type} (service : Services World) (email : EmailLib).

Lemma try_label_ok label w w1 t u :
  process_label service email label w = (w1, t, Ok u) ->
  try_label service email label w = (w1, t, Ok u).
Proof. intros H. unfold try_label, try_except. now rewrite H. Qed.

Lemma try_label_caught label w w1 t e :
  process_label service email label w = (w1, t, Raise e) ->
  is_HttpError e = true ->
  try_label service email label w
  = (w1, t ++ [Print (label_error_line label e)], Ok tt).
Proof. intros H He. unfold try_label, try_except. now rewrite H, He. Qed.

Lemma try_label_uncaught label w w1 t e :
  process_label service email label w = (w1, t, Raise e) ->
  is_HttpError e = false ->
  try_label service email label w = (w1, t, Raise e).
Proof. intros H He. unfold try_label, try_except. now rewrite H, He. Qed.

Lemma process_label_scan_raise label w w1 e :
  messages_list service (list_request_of label) w = (w1, Raise e) ->
  process_label service email label w
  = (w1, [MessagesList (list_request_of label)], Raise e).
Proof.
  intros H. unfold process_label. unfold_bind.
  apply bind_Raise. unfold call. now rewrite H.
Qed.

Lemma process_label_scan_ok label w w1 response :
  messages_list service (list_request_of label) w = (w1, Ok response) ->
  process_label service email label w
  = after [MessagesList (list_request_of label)]
      (for_each (default [] (messages response)) (process_message service email) w1).
Proof.
  intros H. unfold process_label. unfold_bind.
  erewrite bind_Ok; [reflexivity|]. unfold call. now rewrite H.
Qed.

(** The run over a sequence of labels, cut at one of them. *)
Lemma process_labels_step_ok before label later w0 w t0 u w1 t u' :
  process_labels service email before w0 = (w, t0, Ok u) ->
  try_label service email label w = (w1, t, Ok u') ->
  process_labels service email (before ++ label :: later) w0
  = after (t0 ++ t) (process_labels service email later w1).
Proof.
  intros Hb Hl. unfold process_labels in *.
  rewrite (for_each_app _ _ _ _ _ _ _ Hb).
  rewrite (for_each_ok _ _ _ _ _ _ _ Hl).
  now rewrite after_after.
Qed.

Lemma process_labels_step_raise before label later w0 w t0 u w1 t e :
  process_labels service email before w0 = (w, t0, Ok u) ->
  try_label service email label w = (w1, t, Raise e) ->
  process_labels service email (before ++ label :: later) w0
  = (w1, t0 ++ t, Raise e).
Proof.
  intros Hb Hl. unfold process_labels in *.
  now apply for_each_app_raise with (w1 := w) (u := u).
Qed.

Lemma generate_reply_without_key sender subject body_snippet w :
  falsy (environ service !! lit "OPENAI_API_KEY") = true ->
  generate_reply service sender subject body_snippet w = (w, [], Raise missing_key_error).
Proof. intros Hkey. unfold generate_reply. now rewrite Hkey. Qed.

Lemma generate_reply_with_key sender subject body_snippet w :
  falsy (environ service !! lit "OPENAI_API_KEY") = false ->
  generate_reply service sender subject body_snippet w
  = let request := chat_request_of (prompt_of sender subject body_snippet) in
    match chat_completion_create service request w with
    | (w1, inl detail) => (w1, [ChatCompletionCreate request], Raise (OpenAIError detail))
    | (w1, inr response) =>
        (w1, [ChatCompletionCreate request],
         match choices response with
         | [] => Raise (IndexError (lit "list index out of range"))
         | choice :: _ => Ok (strip (content (message choice)))
         end)
    end.
Proof.
  intros Hkey. unfold generate_reply. rewrite Hkey.
  unfold_bind. unfold bind, call. cbv zeta.
  destruct (chat_completion_create service _ w) as [w1 [detail|response]];
    [reflexivity|].
  destruct (choices response); reflexivity.
Qed.

Lemma process_message_fetch_raise ref w w1 e :
  messages_get service (get_request_of (id ref)) w = (w1, Raise e) ->
  process_message service email ref w
  = (w1, [MessagesGet (get_request_of (id ref))], Raise e).
Proof.
  intros H. unfold process_message. unfold_bind.
  apply bind_Raise. unfold call. now rewrite H.
Qed.

Lemma process_message_fetch_ok ref w w1 full_msg :
  messages_get service (get_request_of (id ref)) w = (w1, Ok full_msg) ->
  process_message service email ref w
  = after [MessagesGet (get_request_of (id ref))]
      (bind (generate_reply service (sender_of full_msg) (subject_of full_msg)
               (snippet_of full_msg))
         (fun reply_body =>
            bind (lift (create_message email user_id (sender_of full_msg)
                          (subject_of full_msg) reply_body))
              (fun draft_message =>
                 call (DraftsCreate (draft_request_of draft_message))
                   (drafts_create service (draft_request_of draft_message))))
         w1).
Proof.
  intros H. unfold process_message. unfold_bind.
  erewrite bind_Ok; [reflexivity|]. unfold call. now rewrite H.
Qed.

(** Without the key a message is fetched and nothing more. *)
Lemma process_message_without_key ref w :
  falsy (environ service !! lit "OPENAI_API_KEY") = true ->
  process_message service email ref w
  = match messages_get service (get_request_of (id ref)) w with
    | (w1, fetched) =>
        (w1, [MessagesGet (get_request_of (id ref))],
         match fetched with
         | Ok _ => Raise missing_key_error
         | Raise e => Raise e
         end)
    end.
Proof.
  intros Hkey.
  destruct (messages_get service (get_request_of (id ref)) w) as [w1 [fm|e]] eqn:Hget.
  - rewrite (process_message_fetch_ok _ _ _ _ Hget).
    erewrite bind_Raise; [reflexivity|]. now apply generate_reply_without_key.
  - now apply process_message_fetch_raise.
Qed.

End PipelineFacts.

(** ** Failures and the label boundary *)

Section Isolation.

Context {World : Type} (service : Services World) (email : EmailLib).

(** C5.  When the scan of a label fails with an [HttpError], the label
    contributes the list call and the printed line and nothing else (no
    message is fetched, no reply generated, no draft stored), and the run
    goes on with the labels after it.  When instead a call for one of the
    label's messages fails with an [HttpError], the messages after it are
    not visited and the run goes on with the next label in the same way. *)
Theorem scan_failure_confined_to_label :
  (forall before label later w0 w t0 w1 detail,
      process_labels service email before w0 = (w, t0, Ok tt) ->
      messages_list service (list_request_of label) w = (w1, Raise (HttpError detail)) ->
      process_labels service email (before ++ label :: later) w0
      = after (t0 ++ [MessagesList (list_request_of label);
                      Print (label_error_line label (HttpError detail))])
          (process_labels service email later w1))
  /\
  (forall before label later w0 w t0 w1 response seen ref unseen w2 t2 w3 t3 detail,
      process_labels service email before w0 = (w, t0, Ok tt) ->
      messages_list service (list_request_of label) w = (w1, Ok response) ->
      default [] (messages response) = seen ++ ref :: unseen ->
      for_each seen (process_message service email) w1 = (w2, t2, Ok tt) ->
      process_message service email ref w2 = (w3, t3, Raise (HttpError detail)) ->
      process_labels service email (before ++ label :: later) w0
      = after (t0 ++ MessagesList (list_request_of label) :: t2 ++ t3
                  ++ [Print (label_error_line label (HttpError detail))])
          (process_labels service email later w3)).
Proof.
  split.
  - intros before label later w0 w t0 w1 detail Hbefore Hscan.
    eapply process_labels_step_ok; [exact Hbefore|].
    apply (try_label_caught _ _ _ _ _ [MessagesList (list_request_of label)]);
      [|reflexivity].
    now apply process_label_scan_raise.
  - intros before label later w0 w t0 w1 response seen ref unseen w2 t2 w3 t3 detail
      Hbefore Hscan Hsplit Hseen Hfail.
    eapply process_labels_step_ok; [exact Hbefore|].
    replace (MessagesList (list_request_of label) :: t2 ++ t3
               ++ [Print (label_error_line label (HttpError detail))])
      with ((MessagesList (list_request_of label) :: t2 ++ t3)
              ++ [Print (label_error_line label (HttpError detail))])
      by (simpl; now rewrite <- app_assoc).
    apply try_label_caught; [|reflexivity].
    rewrite (process_label_scan_ok _ _ _ _ _ _ Hscan), Hsplit.
    now rewrite (for_each_app_raise _ _ _ _ _ _ _ _ _ _ _ Hseen Hfail).
Qed.

(** C6.  A label whose scan answers without messages (the key
    [messages] missing, or an empty list) contributes the list call
    alone: its turn ends normally, nothing is printed, and the run goes
    on with the labels after it. *)
Theorem empty_label_is_skipped :
  forall before label later w0 w t0 w1 response,
    process_labels service email before w0 = (w, t0, Ok tt) ->
    messages_list service (list_request_of label) w = (w1, Ok response) ->
    default [] (messages response) = [] ->
    try_label service email label w = (w1, [MessagesList (list_request_of label)], Ok tt)
    /\ process_labels service email (before ++ label :: later) w0
       = after (t0 ++ [MessagesList (list_request_of label)])
           (process_labels service email later w1).
Proof.
  intros before label later w0 w t0 w1 response Hbefore Hscan Hempty.
  assert (Hturn : try_label service email label w
                  = (w1, [MessagesList (list_request_of label)], Ok tt)).
  { apply try_label_ok.
    rewrite (process_label_scan_ok _ _ _ _ _ _ Hscan), Hempty. reflexivity. }
  split; [exact Hturn|].
  eapply process_labels_step_ok; eassumption.
Qed.

(** C7.  A [RuntimeError] (the error of the missing key) that ends the
    processing of a label is not caught by the label's handler: the turn
    of the label ends with it, nothing is printed, and the whole run ends
    with it, the labels after it untouched. *)
Theorem configuration_error_ends_run :
  forall before label later w0 w t0 w1 t msg,
    process_labels service email before w0 = (w, t0, Ok tt) ->
    process_label service email label w = (w1, t, Raise (RuntimeError msg)) ->
    try_label service email label w = (w1, t, Raise (RuntimeError msg))
    /\ process_labels service email (before ++ label :: later) w0
       = (w1, t0 ++ t, Raise (RuntimeError msg)).
Proof.
  intros before label later w0 w t0 w1 t msg Hbefore Hlabel.
  assert (Hturn : try_label service email label w = (w1, t, Raise (RuntimeError msg)))
    by now apply try_label_uncaught.
  split; [exact Hturn|].
  eapply process_labels_step_raise; eassumption.
Qed.

(** C2, as the code has it.  When the chat endpoint fails for a message,
    the run ends with that error right after the request: no draft is
    made for the message, the messages and the labels after it are not
    visited. *)
Theorem generation_failure_ends_run :
  forall before label later w0 w t0 w1 response seen ref unseen w2 t2 w3 full_msg w4 detail,
    process_labels service email before w0 = (w, t0, Ok tt) ->
    messages_list service (list_request_of label) w = (w1, Ok response) ->
    default [] (messages response) = seen ++ ref :: unseen ->
    for_each seen (process_message service email) w1 = (w2, t2, Ok tt) ->
    messages_get service (get_request_of (id ref)) w2 = (w3, Ok full_msg) ->
    falsy (environ service !! lit "OPENAI_API_KEY") = false ->
    chat_completion_create service
      (chat_request_of
         (prompt_of (sender_of full_msg) (subject_of full_msg) (snippet_of full_msg)))
      w3 = (w4, inl detail) ->
    process_labels service email (before ++ label :: later) w0
    = (w4,
       t0 ++ MessagesList (list_request_of label) :: t2
          ++ [MessagesGet (get_request_of (id ref));
              ChatCompletionCreate
                (chat_request_of
                   (prompt_of (sender_of full_msg) (subject_of full_msg)
                      (snippet_of full_msg)))],
       Raise (OpenAIError detail)).
Proof.
  intros before label later w0 w t0 w1 response seen ref unseen w2 t2 w3 full_msg w4 detail
    Hbefore Hscan Hsplit Hseen Hget Hkey Hchat.
  eapply process_labels_step_raise; [exact Hbefore|].
  apply try_label_uncaught; [|reflexivity].
  rewrite (process_label_scan_ok _ _ _ _ _ _ Hscan), Hsplit.
  erewrite for_each_app_raise; [reflexivity|exact Hseen|].
  rewrite (process_message_fetch_ok _ _ _ _ _ _ Hget).
  erewrite bind_Raise; [reflexivity|].
  rewrite generate_reply_with_key by exact Hkey.
  cbv zeta. now rewrite Hchat.
Qed.

(** C1, as the code has it.  Without the key (unset or empty) no run
    issues a generation request or stores a draft; a message is fetched
    and then its turn ends: with the error of the missing key when the
    fetch succeeded, with the error of the fetch otherwise. *)
Theorem missing_key_no_generation_no_draft :
  falsy (environ service !! lit "OPENAI_API_KEY") = true ->
  (forall labels w,
      Forall no_generation_no_draft (events_of (process_labels service email labels w)))
  /\
  (forall ref w,
      process_message service email ref w
      = match messages_get service (get_request_of (id ref)) w with
        | (w1, fetched) =>
            (w1, [MessagesGet (get_request_of (id ref))],
             match fetched with
             | Ok _ => Raise missing_key_error
             | Raise e => Raise e
             end)
        end).
Proof.
  intros Hkey. split.
  - intros labels. unfold process_labels.
    apply events_for_each. intros label w.
    unfold try_label. apply events_try_except.
    + unfold process_label. unfold_bind. apply events_bind.
      * now apply events_call.
      * intros response w1. apply events_for_each. intros ref w2.
        rewrite process_message_without_key by exact Hkey.
        destruct (messages_get service _ w2) as [w3 fetched].
        unfold events_of. simpl. now repeat constructor.
    + intros e w1. unfold print, events_of. simpl. now repeat constructor.
  - intros ref w. now apply process_message_without_key.
Qed.

End Isolation.

(** ** White space and [strip] *)

Lemma lstrip_split (s : pystr) :
  exists pre, s = pre ++ lstrip s /\ forallb is_space pre = true.
Proof.
  induction s as [|c s (pre & Heq & Hpre)].
  - now exists [].
  - simpl. destruct (is_space c) eqn:Hc.
    + exists (c :: pre). simpl. rewrite Hc, Hpre. split; [now f_equal|reflexivity].
    + now exists [].
Qed.

Lemma lstrip_head (s : pystr) :
  match lstrip s with c :: _ => is_space c = false | [] => True end.
Proof.
  induction s as [|c s IH]; simpl; [exact I|].
  destruct (is_space c) eqn:Hc; [exact IH|exact Hc].
Qed.

Lemma rstrip_split (s : pystr) :
  exists suf, s = rstrip s ++ suf /\ forallb is_space suf = true.
Proof.
  destruct (lstrip_split (rev s)) as (pre & Heq & Hpre).
  exists (rev pre). split.
  - unfold rstrip. rewrite <- rev_app_distr, <- Heq. now rewrite rev_involutive.
  - rewrite forallb_forall in *. intros c Hc. apply Hpre. now apply in_rev.
Qed.

Lemma rstrip_last (s : pystr) :
  match rev (rstrip s) with c :: _ => is_space c = false | [] => True end.
Proof. unfold rstrip. rewrite rev_involutive. apply lstrip_head. Qed.

(** [strip] removes white space at both ends and nothing else, and what
    it returns starts and ends with a character that is not white
    space. *)
Lemma strip_spec (s : pystr) :
  trimmed (strip s) = true
  /\ exists pre suf,
      s = pre ++ strip s ++ suf
      /\ forallb is_space pre = true /\ forallb is_space suf = true.
Proof.
  destruct (rstrip_split s) as (suf & Hs & Hsuf).
  destruct (lstrip_split (rstrip s)) as (pre & Hr & Hpre).
  split.
  - unfold trimmed. apply andb_true_iff. split.
    + unfold strip. pose proof (lstrip_head (rstrip s)) as H.
      destruct (lstrip (rstrip s)); [reflexivity|]. now rewrite H.
    + pose proof (rstrip_last s) as H. fold (strip s) in Hr.
      rewrite Hr, rev_app_distr in H.
      destruct (rev (strip s)) as [|c r]; [reflexivity|].
      simpl in H. now rewrite H.
  - exists pre, suf. fold (strip s) in Hr.
    split; [|now split]. rewrite app_assoc, <- Hr. exact Hs.
Qed.

(** ** The Reply Generator *)

Section Generator.

Context {World : Type} (service : Services World).

(** C8.  With the key in the environment, [generate_reply] issues
    exactly one request, whose single message has the three fields
    between the fixed pieces of the prompt; when the endpoint answers,
    the reply is the text of the first choice without the white space
    around it; when it fails, its error is raised. *)
Theorem generate_reply_one_request_trimmed :
  forall sender subject body_snippet w,
    falsy (environ service !! lit "OPENAI_API_KEY") = false ->
    events_of (generate_reply service sender subject body_snippet w)
    = [ChatCompletionCreate (chat_request_of (prompt_of sender subject body_snippet))]
    /\ chat_messages (chat_request_of (prompt_of sender subject body_snippet))
       = [ {| role := lit "user";
              content :=
                (lit "You are an assistant drafting polite, professional email replies for a "
                 ++ lit "photo booth rental company named PhoBoCo. Use the email below as context."
                 ++ LF ++ lit "From: ")
                ++ sender
                ++ (LF ++ lit "Subject: ")
                ++ subject
                ++ (LF ++ lit "Message snippet:" ++ LF)
                ++ body_snippet
                ++ (LF ++ LF
                    ++ lit "Craft a concise, friendly response addressing the sender's points and "
                    ++ lit "acknowledging their inquiry. Sign off as 'PhoBoCo Team'.") |} ]
    /\ match chat_completion_create service
               (chat_request_of (prompt_of sender subject body_snippet)) w with
       | (w1, inr response) =>
           world_of (generate_reply service sender subject body_snippet w) = w1
           /\ match choices response with
              | choice :: _ =>
                  let text := content (message choice) in
                  result_of (generate_reply service sender subject body_snippet w)
                  = Ok (strip text)
                  /\ trimmed (strip text) = true
                  /\ exists pre suf,
                      text = pre ++ strip text ++ suf
                      /\ forallb is_space pre = true /\ forallb is_space suf = true
              | [] =>
                  result_of (generate_reply service sender subject body_snippet w)
                  = Raise (IndexError (lit "list index out of range"))
              end
       | (w1, inl detail) =>
           generate_reply service sender subject body_snippet w
           = (w1, [ChatCompletionCreate (chat_request_of (prompt_of sender subject body_snippet))],
              Raise (OpenAIError detail))
       end.
Proof.
  intros sender subject body_snippet w Hkey.
  rewrite (generate_reply_with_key _ _ _ _ _ Hkey). cbv zeta.
  split; [|split].
  - now destruct (chat_completion_create service _ w) as [w1 [detail|response]].
  - unfold chat_request_of, chat_messages, prompt_of.
    rewrite <- !app_assoc. reflexivity.
  - destruct (chat_completion_create service _ w) as [w1 [detail|response]];
      [reflexivity|].
    split; [reflexivity|].
    destruct (choices response) as [|choice others]; [reflexivity|].
    split; [reflexivity|]. apply strip_spec.
Qed.

End Generator.

(** ** The Draft Composer *)

Section ComposerFacts.

Context (email : EmailLib).

(** A message that was built carries the three headers in the order of
    the source and the lines of the text. *)
Lemma build_message_inv from_email to_email subject message_text msg :
  build_message email from_email to_email subject message_text = Ok msg ->
  msg_headers msg
  = [(lit "To", to_email); (lit "From", from_email);
     (lit "Subject", lit "Re: " ++ subject)]
  /\ exists body, encode_utf8 message_text = Some body
                  /\ msg_lines msg = Some (bytes_splitlines body).
Proof.
  unfold build_message, setitem, set_content. unfold_bind.
  destruct (header_error email (lit "To") to_email); [discriminate|].
  destruct (header_error email (lit "From") from_email); [discriminate|].
  destruct (header_error email (lit "Subject") (lit "Re: " ++ subject)); [discriminate|].
  destruct (encode_utf8 message_text) as [body|]; [|discriminate].
  intros [= <-]. split; [reflexivity|]. now exists body.
Qed.

Lemma create_message_inv from_email to_email subject message_text d :
  create_message email from_email to_email subject message_text = Ok d ->
  exists msg,
    build_message email from_email to_email subject message_text = Ok msg
    /\ draft_of_message email msg d.
Proof.
  unfold create_message. unfold_bind.
  destruct (build_message email from_email to_email subject message_text) as [msg|];
    [|discriminate].
  destruct (as_bytes email msg) as [bs|] eqn:Hbs; [|discriminate].
  intros [= <-]. exists msg. split; [reflexivity|]. now exists bs.
Qed.

End ComposerFacts.

(** ** Fetched messages and their drafts *)

Lemma header_dict_absent (n : pystr) (hs : list header) :
  Forall (fun h => name h <> n) hs -> header_dict hs !! n = None.
Proof.
  unfold header_dict.
  assert (Hgen : forall d : gmap pystr pystr,
             d !! n = None ->
             Forall (fun h => name h <> n) hs ->
             foldl (fun d h => <[name h := value h]> d) d hs !! n = None).
  { induction hs as [|h hs IH]; intros d Hd Hall; [exact Hd|].
    simpl. inversion Hall as [|? ? Hh Hrest]; subst.
    apply IH; [|exact Hrest]. now rewrite lookup_insert_ne. }
  apply Hgen. apply lookup_empty.
Qed.

Lemma subject_of_absent full_msg :
  header_absent (lit "Subject") full_msg -> subject_of full_msg = [].
Proof. intros H. unfold subject_of. now rewrite header_dict_absent. Qed.

Lemma sender_of_absent full_msg :
  header_absent (lit "From") full_msg -> sender_of full_msg = [].
Proof. intros H. unfold sender_of. now rewrite header_dict_absent. Qed.

Section Drafts.

Context {World : Type} (service : Services World) (email : EmailLib).

Lemma bind_lift {A B} (r : result A) (k : A -> M World B) (w : World) :
  bind (lift r) k w = match r with Ok a => k a w | Raise e => (w, [], Raise e) end.
Proof.
  unfold bind, lift. destruct r as [a|e]; [|reflexivity].
  now destruct (k a w) as [[w2 t2] r2].
Qed.

Lemma generate_reply_events (P : event -> Prop) sender subject body_snippet w :
  (forall r, P (ChatCompletionCreate r)) ->
  Forall P (events_of (generate_reply service sender subject body_snippet w)).
Proof.
  intros HP. unfold generate_reply.
  destruct (falsy _); [constructor|].
  unfold_bind. apply events_bind.
  - now apply events_call.
  - intros response w2. destruct (choices response); constructor.
Qed.

Lemma process_message_events ref w :
  Forall (stored_for service email ref w)
    (events_of (process_message service email ref w)).
Proof.
  destruct (messages_get service (get_request_of (id ref)) w) as [w1 [fm|e]] eqn:Hget.
  - rewrite (process_message_fetch_ok _ _ _ _ _ _ Hget), events_of_after.
    apply Forall_app. split; [now repeat constructor|].
    apply events_bind; [now apply generate_reply_events|].
    intros reply_body w2. rewrite bind_lift.
    destruct (create_message email user_id (sender_of fm) (subject_of fm) reply_body)
      as [d|e] eqn:Hd; [|constructor].
    apply events_call. split; [reflexivity|].
    exists w1, fm, reply_body. split; [exact Hget|exact Hd].
  - rewrite (process_message_fetch_raise _ _ _ _ _ _ Hget).
    now repeat constructor.
Qed.

Lemma stored_for_run ref w ev :
  stored_for service email ref w ev -> stored_by_run email ev.
Proof.
  destruct ev as [r|r|r|r|line]; try exact (fun _ => I).
  intros (Huser & w1 & fm & reply_body & _ & Hd).
  split; [exact Huser|]. now exists (sender_of fm), (subject_of fm), reply_body.
Qed.

Lemma process_labels_events labels w :
  Forall (stored_by_run email) (events_of (process_labels service email labels w)).
Proof.
  unfold process_labels. apply events_for_each. clear w. intros label w.
  unfold try_label. apply events_try_except.
  - unfold process_label. unfold_bind. apply events_bind.
    + now apply events_call.
    + intros response w1. apply events_for_each. intros ref w2.
      eapply List.Forall_impl; [|apply process_message_events].
      intros ev. apply stored_for_run.
  - intros e w1. now repeat constructor.
Qed.

(** C10.  Every draft a run stores is stored for the user id [me], and
    it is composed with [me] as the sender: the From header of the
    composed message is the string [me]. *)
Theorem draft_sender_is_me :
  forall labels w r,
    In (DraftsCreate r) (events_of (process_labels service email labels w)) ->
    draft_userId r = lit "me"
    /\ exists to_email subject reply_body msg,
        build_message email (lit "me") to_email subject reply_body = Ok msg
        /\ get_header (lit "From") (msg_headers msg) = Some (lit "me")
        /\ draft_of_message email msg (draft_body_message r).
Proof.
  intros labels w r Hin.
  pose proof (process_labels_events labels w) as Hall.
  rewrite List.Forall_forall in Hall. specialize (Hall _ Hin).
  destruct Hall as (Huser & to_email & subject & reply_body & Hd).
  split; [exact Huser|].
  destruct (create_message_inv _ _ _ _ _ _ Hd) as (msg & Hmsg & Hdraft).
  exists to_email, subject, reply_body, msg. repeat split; try assumption.
  destruct (build_message_inv _ _ _ _ _ _ Hmsg) as (Hheaders & _).
  rewrite Hheaders. reflexivity.
Qed.

(** C9.  When the metadata of a fetched message lacks the Subject or the
    From header, the field read from it is the empty string, and the
    turn of the message goes on as for any message: with the key set,
    an answer of the endpoint and a draft the composer accepts, the
    reply is requested for these fields and the draft is handed to the
    mail service. *)
Theorem missing_header_is_empty_string :
  forall ref w w1 full_msg w2 response choice others draft_message w3 stored,
    messages_get service (get_request_of (id ref)) w = (w1, Ok full_msg) ->
    header_absent (lit "Subject") full_msg \/ header_absent (lit "From") full_msg ->
    falsy (environ service !! lit "OPENAI_API_KEY") = false ->
    chat_completion_create service
      (chat_request_of
         (prompt_of (sender_of full_msg) (subject_of full_msg) (snippet_of full_msg)))
      w1 = (w2, inr response) ->
    choices response = choice :: others ->
    create_message email user_id (sender_of full_msg) (subject_of full_msg)
      (strip (content (message choice))) = Ok draft_message ->
    drafts_create service (draft_request_of draft_message) w2 = (w3, stored) ->
    (header_absent (lit "Subject") full_msg -> subject_of full_msg = [])
    /\ (header_absent (lit "From") full_msg -> sender_of full_msg = [])
    /\ process_message service email ref w
       = (w3,
          [MessagesGet (get_request_of (id ref));
           ChatCompletionCreate
             (chat_request_of
                (prompt_of (sender_of full_msg) (subject_of full_msg)
                   (snippet_of full_msg)));
           DraftsCreate (draft_request_of draft_message)],
          stored).
Proof.
  intros ref w w1 fm w2 response choice others d w3 stored
    Hget _ Hkey Hchat Hchoices Hd Hstore.
  split; [apply subject_of_absent|]. split; [apply sender_of_absent|].
  rewrite (process_message_fetch_ok _ _ _ _ _ _ Hget).
  erewrite bind_Ok.
  2:{ rewrite generate_reply_with_key by exact Hkey. cbv zeta.
      rewrite Hchat, Hchoices. reflexivity. }
  rewrite bind_lift, Hd. unfold call. rewrite Hstore. reflexivity.
Qed.

End Drafts.

(** ** base64 decodes what it encoded *)

Lemma in_all_bytes (b : byte) : In b all_bytes.
Proof.
  unfold all_bytes. apply in_map_iff. exists (Byte.to_N b). split.
  - unfold byte_of_N. now rewrite Byte.of_to_N.
  - apply in_map_iff. exists (N.to_nat (Byte.to_N b)). split.
    + apply N2Nat.id.
    + apply in_seq. pose proof (Byte.to_N_bounded b). lia.
Qed.

Lemma forall_byte_spec (P : byte -> bool) :
  forall_byte P = true -> forall b, P b = true.
Proof.
  unfold forall_byte. rewrite forallb_forall. intros H b. apply H, in_all_bytes.
Qed.

Lemma forall_byte2_spec (P : byte -> byte -> bool) :
  forall_byte (fun a => forall_byte (P a)) = true -> forall a b, P a b = true.
Proof.
  intros H a b. apply (forall_byte_spec (P a)).
  exact (forall_byte_spec (fun a => forall_byte (P a)) H a).
Qed.

Lemma reads_back_spec (s : N) :
  reads_back s = true ->
  Byte.eqb (urlsafe_decode_translation (urlsafe_encode_translation (b64_char s))) pad = false
  /\ b64_index (urlsafe_decode_translation (urlsafe_encode_translation (b64_char s)))
     = Some s.
Proof.
  unfold reads_back. cbv zeta. intros H.
  apply andb_true_iff in H as [Hpad Hidx]. split.
  - now apply negb_true_iff.
  - destruct (b64_index _) as [s'|]; [|discriminate].
    apply N.eqb_eq in Hidx. now subst.
Qed.

Lemma sextet0_reads_back b0 : reads_back (sextet0 b0) = true.
Proof. revert b0. apply forall_byte_spec. vm_compute. reflexivity. Qed.

Lemma sextet1_reads_back b0 b1 : reads_back (sextet1 b0 b1) = true.
Proof.
  revert b0 b1. apply (forall_byte2_spec (fun b0 b1 => reads_back (sextet1 b0 b1))).
  vm_compute. reflexivity.
Qed.

Lemma sextet2_reads_back b1 b2 : reads_back (sextet2 b1 b2) = true.
Proof.
  revert b1 b2. apply (forall_byte2_spec (fun b1 b2 => reads_back (sextet2 b1 b2))).
  vm_compute. reflexivity.
Qed.

Lemma sextet3_reads_back b2 : reads_back (sextet3 b2) = true.
Proof. revert b2. apply forall_byte_spec. vm_compute. reflexivity. Qed.

Lemma octet0_sextets b0 b1 : octet0 (sextet0 b0) (sextet1 b0 b1) = b0.
Proof.
  apply Byte.byte_dec_bl. revert b0 b1.
  apply (forall_byte2_spec
           (fun b0 b1 => Byte.eqb (octet0 (sextet0 b0) (sextet1 b0 b1)) b0)).
  vm_compute. reflexivity.
Qed.

Lemma octet2_sextets b1 b2 : octet2 (sextet2 b1 b2) (sextet3 b2) = b2.
Proof.
  apply Byte.byte_dec_bl. revert b1 b2.
  apply (forall_byte2_spec
           (fun b1 b2 => Byte.eqb (octet2 (sextet2 b1 b2) (sextet3 b2)) b2)).
  vm_compute. reflexivity.
Qed.

(** The middle byte is split over two characters, each of which also
    carries bits of a neighbour. *)
Lemma sextet1_low b0 b1 : N.land (sextet1 b0 b1) 15 = N.shiftr (Byte.to_N b1) 4.
Proof.
  apply N.eqb_eq. revert b0 b1.
  apply (forall_byte2_spec
           (fun b0 b1 => N.land (sextet1 b0 b1) 15 =? N.shiftr (Byte.to_N b1) 4)).
  vm_compute. reflexivity.
Qed.

Lemma sextet2_high b1 b2 : N.shiftr (sextet2 b1 b2) 2 = N.land (Byte.to_N b1) 15.
Proof.
  apply N.eqb_eq. revert b1 b2.
  apply (forall_byte2_spec
           (fun b1 b2 => N.shiftr (sextet2 b1 b2) 2 =? N.land (Byte.to_N b1) 15)).
  vm_compute. reflexivity.
Qed.

Lemma nibbles_join b1 :
  byte_of_N (N.lor (N.shiftl (N.shiftr (Byte.to_N b1) 4) 4) (N.land (Byte.to_N b1) 15)) = b1.
Proof.
  apply Byte.byte_dec_bl. revert b1.
  apply (forall_byte_spec
           (fun b1 =>
              Byte.eqb
                (byte_of_N (N.lor (N.shiftl (N.shiftr (Byte.to_N b1) 4) 4)
                              (N.land (Byte.to_N b1) 15))) b1)).
  vm_compute. reflexivity.
Qed.

Lemma octet1_sextets b0 b1 b2 : octet1 (sextet1 b0 b1) (sextet2 b1 b2) = b1.
Proof. unfold octet1. rewrite sextet1_low, sextet2_high. apply nibbles_join. Qed.

Lemma pad_translated :
  urlsafe_decode_translation (urlsafe_encode_translation pad) = pad.
Proof. reflexivity. Qed.

Theorem urlsafe_b64decode_encode (bs : bytes) :
  urlsafe_b64decode (urlsafe_b64encode bs) = Some bs.
Proof.
  unfold urlsafe_b64decode, urlsafe_b64encode. rewrite List.map_map.
  assert (Hgen : forall n (l : bytes), (length l <= n)%nat ->
             b64decode
               (List.map (fun c => urlsafe_decode_translation (urlsafe_encode_translation c))
                  (b64encode l)) = Some l).
  { clear bs. induction n as [|n IH]; intros l Hlen.
    - destruct l; [reflexivity|simpl in Hlen; lia].
    - destruct l as [|b0 [|b1 [|b2 rest]]].
      + reflexivity.
      + cbn [b64encode List.map b64decode].
        destruct (reads_back_spec _ (sextet0_reads_back b0)) as [_ ->].
        destruct (reads_back_spec _ (sextet1_reads_back b0 x00)) as [_ ->].
        rewrite pad_translated. change (Byte.eqb pad pad) with true. cbv iota.
        now rewrite octet0_sextets.
      + cbn [b64encode List.map b64decode].
        destruct (reads_back_spec _ (sextet0_reads_back b0)) as [_ ->].
        destruct (reads_back_spec _ (sextet1_reads_back b0 b1)) as [_ ->].
        destruct (reads_back_spec _ (sextet2_reads_back b1 x00)) as [-> ->].
        rewrite pad_translated. change (Byte.eqb pad pad) with true. cbv iota.
        now rewrite octet0_sextets, octet1_sextets.
      + cbn [b64encode List.map b64decode].
        destruct (reads_back_spec _ (sextet0_reads_back b0)) as [_ ->].
        destruct (reads_back_spec _ (sextet1_reads_back b0 b1)) as [_ ->].
        destruct (reads_back_spec _ (sextet2_reads_back b1 b2)) as [_ ->].
        destruct (reads_back_spec _ (sextet3_reads_back b2)) as [-> ->].
        rewrite IH by (simpl in Hlen; lia).
        now rewrite octet0_sextets, octet1_sextets, octet2_sextets. }
  now apply (Hgen (length bs)).
Qed.

(** ** The payload of a draft *)

Lemma encode_decode_ascii (bs : bytes) : encode_ascii (decode_ascii bs) = bs.
Proof.
  unfold encode_ascii, decode_ascii. rewrite List.map_map.
  induction bs as [|b bs IH]; [reflexivity|].
  simpl. rewrite IH. unfold byte_of_N. now rewrite Byte.of_to_N.
Qed.

Lemma byte_of_N_small (n : N) : n < 256 -> Byte.to_N (byte_of_N n) = n.
Proof.
  intros Hn. unfold byte_of_N.
  destruct (Byte.of_N n) as [b|] eqn:Hb.
  - now apply Byte.to_of_N.
  - apply Byte.of_N_None_iff in Hb. lia.
Qed.

(** ** Encoded words in a header text *)

Lemma pieces_concat (s : pystr) : concat (List.map snd (pieces s)) = s.
Proof.
  induction s as [|c s IH]; [reflexivity|].
  simpl. destruct (pieces s) as [|[gap run] later].
  - simpl in *. now rewrite <- IH.
  - destruct (Bool.eqb gap (is_WSP c)); simpl in *; now rewrite <- IH.
Qed.

Lemma mentions_word_app (a r : pystr) : mentions_word (a ++ 61 :: 63 :: r) = true.
Proof.
  induction a as [|c a IH]; [reflexivity|].
  change ((c :: a) ++ 61 :: 63 :: r) with (c :: (a ++ 61 :: 63 :: r)).
  cbn [mentions_word]. rewrite IH.
  destruct (a ++ 61 :: 63 :: r) eqn:E; [now destruct a|].
  apply orb_true_r.
Qed.

Lemma split_on_inv (sep : char) (s p q : pystr) (ps : list pystr) :
  split_on sep s = p :: q :: ps -> exists s', s = p ++ sep :: s'.
Proof.
  revert p. induction s as [|c s IH]; intros p; [discriminate|].
  simpl. destruct (N.eqb_spec c sep) as [->|Hc].
  - intros [= <- _]. now exists s.
  - destruct (split_on sep s) as [|p' ps'] eqn:E; [discriminate|].
    intros [= <- ->]. destruct (IH p' eq_refl) as [s' ->]. now exists s'.
Qed.

Lemma encoded_word_opening (tok text : pystr) :
  encoded_word tok = Some text -> exists r, tok = 61 :: 63 :: r.
Proof.
  unfold encoded_word.
  destruct (split_on 63 tok) as [|opening [|charset [|cte [|payload [|closing [|]]]]]] eqn:E;
    try discriminate.
  destruct (bool_decide (opening = [61])) eqn:Hopen; [|discriminate].
  apply bool_decide_eq_true in Hopen. subst opening.
  intros _. destruct (split_on_inv _ _ _ _ _ E) as [s' ->]. now exists s'.
Qed.

Lemma join_parts_plain (parts : list part) :
  Forall (fun p => forall text, p <> Word text) parts ->
  join_parts parts = concat (List.map part_text parts).
Proof.
  induction 1 as [|p parts Hp _ IH]; [reflexivity|].
  cbn [join_parts List.map concat]. rewrite <- IH.
  destruct p as [text|text|text]; [now destruct (Hp text)| |]; now destruct parts.
Qed.

Lemma unstructured_value_plain (s : pystr) :
  mentions_word s = false -> unstructured_value s = s.
Proof.
  intros Hs. unfold unstructured_value.
  assert (Hplain : Forall (fun piece => part_of piece = Space piece.2 \/ part_of piece = Text piece.2)
                     (pieces s)).
  { apply List.Forall_forall. intros [gap run] Hin. unfold part_of. cbn [fst snd].
    destruct gap; [now left|].
    destruct (encoded_word run) as [text|] eqn:E; [|now right].
    destruct (encoded_word_opening _ _ E) as [r ->].
    destruct (in_split _ _ Hin) as (before & later & Hsplit).
    pose proof (pieces_concat s) as Hcat.
    rewrite Hsplit, List.map_app, concat_app in Hcat. cbn in Hcat.
    rewrite <- Hcat in Hs. change (61 :: 63 :: r ++ concat (List.map snd later))
      with (61 :: 63 :: (r ++ concat (List.map snd later))) in Hs.
    now rewrite mentions_word_app in Hs. }
  rewrite join_parts_plain.
  - rewrite <- (pieces_concat s) at 2. f_equal. rewrite List.map_map.
    apply List.map_ext_in. intros piece Hin.
    rewrite List.Forall_forall in Hplain. now destruct (Hplain _ Hin) as [-> | ->].
  - apply List.Forall_forall. intros p Hin text.
    apply List.in_map_iff in Hin. destruct Hin as (piece & <- & Hin).
    rewrite List.Forall_forall in Hplain. now destruct (Hplain _ Hin) as [-> | ->].
Qed.

Lemma mentions_word_Re (s : pystr) : mentions_word (lit "Re: " ++ s) = mentions_word s.
Proof. now destruct s. Qed.

(** ** Plain text and its bytes *)

Lemma plain_text_app (a b : pystr) :
  plain_text (a ++ b) = plain_text a && plain_text b.
Proof. apply forallb_app. Qed.

Lemma printable_small (c : char) : is_printable c = true -> c < 128.
Proof.
  unfold is_printable. intros [_ H]%andb_true_iff. apply N.leb_le in H. lia.
Qed.

Lemma encode_utf8_plain (s : pystr) :
  forallb (fun c => c <? 128) s = true -> encode_utf8 s = Some (encode_ascii s).
Proof.
  induction s as [|c s IH]; [reflexivity|].
  cbn [forallb]. intros [Hc Hs]%andb_true_iff.
  cbn [encode_utf8]. unfold utf8_char. rewrite Hc, (IH Hs). reflexivity.
Qed.

Lemma decode_encode_plain (s : pystr) :
  forallb (fun c => c <? 128) s = true -> decode_ascii (encode_ascii s) = s.
Proof.
  induction s as [|c s IH]; [reflexivity|].
  cbn [forallb]. intros [Hc Hs]%andb_true_iff.
  apply N.ltb_lt in Hc.
  unfold decode_ascii, encode_ascii in *. cbn [List.map].
  rewrite (IH Hs), byte_of_N_small by lia. reflexivity.
Qed.

Lemma plain_text_small (s : pystr) :
  plain_text s = true -> forallb (fun c => c <? 128) s = true.
Proof.
  unfold plain_text. rewrite !forallb_forall. intros H c Hc.
  apply N.ltb_lt, printable_small, H, Hc.
Qed.

Lemma plain_text_one_line (s : pystr) :
  plain_text s = true -> forallb (fun b => negb (is_LF b)) (encode_ascii s) = true.
Proof.
  unfold plain_text, encode_ascii. rewrite !forallb_forall.
  intros H b Hb. apply List.in_map_iff in Hb as (c & <- & Hc).
  specialize (H c Hc). unfold is_LF.
  pose proof (printable_small _ H) as Hsmall.
  rewrite byte_of_N_small by lia.
  unfold is_printable in H. apply andb_true_iff in H as [H _]. apply N.leb_le in H.
  apply negb_true_iff, N.eqb_neq. lia.
Qed.

Lemma plain_text_header_line (name value : pystr) :
  plain_text name = true -> plain_text value = true ->
  plain_text (header_line name value) = true.
Proof.
  intros Hn Hv. unfold header_line.
  destruct value; rewrite !plain_text_app, Hn; [reflexivity|].
  now rewrite Hv.
Qed.

Lemma header_line_not_empty (name value : pystr) : header_line name value <> [].
Proof.
  unfold header_line. destruct value; intros H; apply app_eq_nil in H; now destruct H.
Qed.

(** ** Reading back what was rendered *)

Lemma split_head_line (line : bytes) :
  forall (cur rest : bytes),
    rev cur ++ line <> [] ->
    forallb (fun b => negb (is_LF b)) line = true ->
    split_head cur (line ++ byte_of_N 10 :: rest)
    = let (lines, body) := split_head [] rest in ((rev cur ++ line) :: lines, body).
Proof.
  induction line as [|b line IH]; intros cur rest Hne Hline.
  - rewrite app_nil_r in *. cbn [app split_head].
    change (is_LF (byte_of_N 10)) with true. cbv iota.
    destruct cur; [now destruct Hne|reflexivity].
  - cbn [forallb] in Hline. apply andb_true_iff in Hline as [Hb Hline].
    cbn [app split_head]. apply negb_true_iff in Hb. rewrite Hb.
    rewrite (IH (b :: cur) rest); cbn [rev]; rewrite <- ?app_assoc; [reflexivity| |exact Hline].
    intros H. now apply app_eq_nil in H as [_ H].
Qed.

Lemma lstrip_WSP_fixed (s : pystr) :
  match s with c :: _ => is_WSP c = false | [] => True end -> lstrip_WSP s = s.
Proof. destruct s as [|c s]; [reflexivity|]. cbn. now intros ->. Qed.

Lemma field_of_header_line (name value : pystr) :
  forallb (fun c => negb (c =? 58)) name = true ->
  field_of (header_line name value) = (name, lstrip_WSP value).
Proof.
  induction name as [|c name IH]; intros Hname.
  - unfold header_line. destruct value; reflexivity.
  - cbn [forallb] in Hname. apply andb_true_iff in Hname as [Hc Hname].
    replace (header_line (c :: name) value) with (c :: header_line name value)
      by (unfold header_line; now destruct value).
    cbn [field_of]. apply negb_true_iff in Hc. rewrite Hc, (IH Hname). reflexivity.
Qed.

Lemma plain_rendering (to_email from_email subject : pystr) (lines : list bytes) :
  plain_text to_email = true -> plain_text from_email = true ->
  plain_text subject = true -> mentions_word subject = false ->
  plain_as_bytes
    {| msg_headers := [(lit "To", to_email); (lit "From", from_email);
                       (lit "Subject", lit "Re: " ++ subject)];
       msg_lines := Some lines |}
  = Ok (encode_ascii (header_line (lit "To") to_email) ++ byte_of_N 10
        :: encode_ascii (header_line (lit "From") from_email) ++ byte_of_N 10
        :: encode_ascii (header_line (lit "Subject") (lit "Re: " ++ subject)) ++ byte_of_N 10
        :: encode_ascii content_lines ++ normal_body lines).
Proof.
  intros Hto Hfrom Hsubject Hword.
  unfold plain_as_bytes. cbn [msg_headers msg_lines List.map concat default].
  unfold render_header. cbn [fst snd].
  change (header_value (lit "To") to_email) with to_email.
  change (header_value (lit "From") from_email) with from_email.
  change (header_value (lit "Subject") (lit "Re: " ++ subject))
    with (unstructured_value (lit "Re: " ++ subject)).
  rewrite unstructured_value_plain by now rewrite mentions_word_Re.
  rewrite app_nil_r.
  match goal with |- context [encode_utf8 ?t] =>
    replace t with (header_line (lit "To") to_email ++ LF
                    ++ header_line (lit "From") from_email ++ LF
                    ++ header_line (lit "Subject") (lit "Re: " ++ subject) ++ LF
                    ++ content_lines)
      by (unfold content_lines; now rewrite <- !app_assoc)
  end.
  rewrite encode_utf8_plain.
  - unfold encode_ascii. rewrite !List.map_app, <- !app_assoc. reflexivity.
  - assert (Hre : plain_text (lit "Re: " ++ subject) = true)
      by now rewrite plain_text_app, Hsubject.
    rewrite !forallb_app.
    rewrite !(plain_text_small (header_line _ _))
      by (apply plain_text_header_line; reflexivity || assumption).
    reflexivity.
Qed.

Lemma split_head_content_lines (body : bytes) :
  split_head [] (encode_ascii content_lines ++ body)
  = ([encode_ascii (lit "Content-Type: text/plain; charset=" ++ DQUOTE ++ lit "utf-8" ++ DQUOTE);
      encode_ascii (lit "Content-Transfer-Encoding: 7bit");
      encode_ascii (lit "MIME-Version: 1.0")],
     body).
Proof. reflexivity. Qed.

Lemma read_field (name value : pystr) :
  plain_text name = true -> plain_text value = true ->
  forallb (fun c => negb (c =? 58)) name = true ->
  field_of (decode_ascii (encode_ascii (header_line name value))) = (name, lstrip_WSP value).
Proof.
  intros Hname Hvalue Hcolon.
  rewrite decode_encode_plain by now apply plain_text_small, plain_text_header_line.
  now apply field_of_header_line.
Qed.

Lemma plain_rendering_read (to_email from_email subject : pystr) (body : bytes) :
  plain_text to_email = true -> plain_text from_email = true ->
  plain_text subject = true ->
  let rendered :=
    encode_ascii (header_line (lit "To") to_email) ++ byte_of_N 10
    :: encode_ascii (header_line (lit "From") from_email) ++ byte_of_N 10
    :: encode_ascii (header_line (lit "Subject") (lit "Re: " ++ subject)) ++ byte_of_N 10
    :: encode_ascii content_lines ++ body in
  read_headers rendered
  = (lit "To", lstrip_WSP to_email) :: (lit "From", lstrip_WSP from_email)
    :: (lit "Subject", lit "Re: " ++ subject) :: content_fields
  /\ read_body rendered = body.
Proof.
  intros Hto Hfrom Hsubject rendered.
  assert (Hre : plain_text (lit "Re: " ++ subject) = true)
    by now rewrite plain_text_app, Hsubject.
  assert (Hsplit : split_head [] rendered
                   = ([encode_ascii (header_line (lit "To") to_email);
                       encode_ascii (header_line (lit "From") from_email);
                       encode_ascii (header_line (lit "Subject") (lit "Re: " ++ subject));
                       encode_ascii (lit "Content-Type: text/plain; charset=" ++ DQUOTE
                                     ++ lit "utf-8" ++ DQUOTE);
                       encode_ascii (lit "Content-Transfer-Encoding: 7bit");
                       encode_ascii (lit "MIME-Version: 1.0")],
                      body)).
  { assert (Hline : forall name value, plain_text name = true -> plain_text value = true ->
              rev [] ++ encode_ascii (header_line name value) <> []
              /\ forallb (fun b => negb (is_LF b)) (encode_ascii (header_line name value)) = true).
    { intros name value Hname Hvalue. split.
      - cbn [rev app]. intros H. apply map_eq_nil in H.
        now apply header_line_not_empty in H.
      - now apply plain_text_one_line, plain_text_header_line. }
    unfold rendered.
    destruct (Hline (lit "To") to_email eq_refl Hto) as [H1 H1'].
    destruct (Hline (lit "From") from_email eq_refl Hfrom) as [H2 H2'].
    destruct (Hline (lit "Subject") (lit "Re: " ++ subject) eq_refl Hre) as [H3 H3'].
    rewrite (split_head_line _ [] _ H1 H1'), (split_head_line _ [] _ H2 H2'),
      (split_head_line _ [] _ H3 H3'), split_head_content_lines.
    reflexivity. }
  unfold read_headers, read_body. rewrite Hsplit. cbn [fst snd List.map].
  rewrite !read_field by (reflexivity || assumption).
  split; reflexivity.
Qed.

(** ** Lines and their ends *)

Lemma bytes_splitlines_line (line : bytes) :
  forall (cur rest : bytes),
    no_line_end line = true ->
    splitlines_from (fun b => is_CR b || is_LF b) is_CR is_LF cur
      (line ++ byte_of_N 10 :: rest)
    = (rev cur ++ line)
      :: splitlines_from (fun b => is_CR b || is_LF b) is_CR is_LF [] rest.
Proof.
  induction line as [|b line IH]; intros cur rest Hline.
  - rewrite app_nil_r. cbn [app splitlines_from].
    change (is_CR (byte_of_N 10) || is_LF (byte_of_N 10)) with true.
    change (is_CR (byte_of_N 10)) with false. cbv iota. cbn [andb].
    now destruct rest.
  - unfold no_line_end in Hline. cbn [forallb] in Hline.
    apply andb_true_iff in Hline as [Hb Hline]. apply negb_true_iff in Hb.
    cbn [app splitlines_from]. rewrite Hb.
    rewrite (IH (b :: cur) rest Hline). cbn [rev]. now rewrite <- app_assoc.
Qed.

Lemma bytes_splitlines_normal_body (lines : list bytes) :
  lines <> [] -> forallb no_line_end lines = true ->
  bytes_splitlines (normal_body lines) = lines.
Proof.
  intros Hne Hlines. unfold bytes_splitlines.
  induction lines as [|line lines IH]; [now destruct Hne|].
  cbn [forallb] in Hlines. apply andb_true_iff in Hlines as [Hline Hlines].
  destruct lines as [|next lines].
  - unfold normal_body. cbn [join_lines].
    now rewrite (bytes_splitlines_line line [] [] Hline).
  - replace (normal_body (line :: next :: lines))
      with (line ++ byte_of_N 10 :: normal_body (next :: lines))
      by (unfold normal_body; cbn [join_lines]; now rewrite <- app_assoc).
    rewrite (bytes_splitlines_line line [] _ Hline). cbn [rev app].
    now rewrite IH.
Qed.

(** ** Plain addresses *)

Lemma split_on_not_empty (sep : char) (s : pystr) : split_on sep s <> [].
Proof.
  destruct s as [|c s]; [discriminate|].
  simpl. destruct (c =? sep); [discriminate|]. now destruct (split_on sep s).
Qed.

Lemma plain_address_no_space (s : pystr) : plain_address (32 :: s) = false.
Proof.
  unfold plain_address.
  assert (Haddr : is_addr_spec (32 :: s) = false).
  { unfold is_addr_spec. cbn [split_on]. change (32 =? 64) with false. cbv iota.
    destruct (split_on 64 s) as [|left_part [|domain [|]]]; try reflexivity.
    cbn [split_on]. change (32 =? 46) with false. cbv iota.
    now destruct (split_on 46 left_part). }
  assert (Hwords : match rev (split_on 32 (32 :: s)) with
                   | final :: words =>
                       (is_atom final || is_angle_addr final) && forallb is_atom words
                   | [] => false
                   end = false).
  { cbn [split_on]. change (32 =? 32) with true. cbv iota. cbn [rev].
    pose proof (split_on_not_empty 32 s) as Hne.
    destruct (rev (split_on 32 s)) as [|final words] eqn:E.
    - apply (f_equal (@rev _)) in E. rewrite rev_involutive in E. now destruct Hne.
    - cbn [app]. rewrite forallb_app. cbn. now rewrite !andb_false_r. }
  rewrite Haddr, Hwords. cbn [orb]. apply andb_false_r.
Qed.

Lemma plain_address_plain_text (s : pystr) :
  plain_address s = true -> plain_text s = true.
Proof.
  unfold plain_address. now intros [[H _]%andb_true_iff _]%andb_true_iff.
Qed.

Lemma plain_address_fixed (s : pystr) :
  plain_address s = true -> lstrip_WSP s = s.
Proof.
  intros Hs. apply lstrip_WSP_fixed. destruct s as [|c s]; [exact I|].
  pose proof (plain_address_plain_text _ Hs) as Hplain.
  unfold plain_text in Hplain. cbn [forallb] in Hplain.
  apply andb_true_iff in Hplain as [Hc _]. unfold is_printable in Hc.
  apply andb_true_iff in Hc as [Hc _]. apply N.leb_le in Hc.
  unfold is_WSP. apply orb_false_iff. split; apply N.eqb_neq; [|lia].
  intros ->. now rewrite plain_address_no_space in Hs.
Qed.

(** ** What is read back from a draft *)

Lemma Ok_inj {A} (a b : A) : Ok a = Ok b -> a = b.
Proof. now intros [= ->]. Qed.

Lemma draft_decodes (email : EmailLib) (msg : EmailMessage) (d : draft) :
  draft_of_message email msg d ->
  exists rendered,
    as_bytes email msg = Ok rendered /\ urlsafe_b64decode_str (raw d) = Some rendered.
Proof.
  intros (bs & Hbs & Hraw). exists bs. split; [exact Hbs|].
  unfold urlsafe_b64decode_str. rewrite Hraw, encode_decode_ascii.
  apply urlsafe_b64decode_encode.
Qed.

Lemma composed_message (email : EmailLib)
    (from_email to_email subject message_text : pystr) (d : draft) :
  create_message email from_email to_email subject message_text = Ok d ->
  exists body rendered,
    encode_utf8 message_text = Some body
    /\ build_message email from_email to_email subject message_text
       = Ok {| msg_headers := [(lit "To", to_email); (lit "From", from_email);
                               (lit "Subject", lit "Re: " ++ subject)];
               msg_lines := Some (bytes_splitlines body) |}
    /\ as_bytes email
         {| msg_headers := [(lit "To", to_email); (lit "From", from_email);
                            (lit "Subject", lit "Re: " ++ subject)];
            msg_lines := Some (bytes_splitlines body) |} = Ok rendered
    /\ urlsafe_b64decode_str (raw d) = Some rendered.
Proof.
  intros Hd.
  destruct (create_message_inv _ _ _ _ _ _ Hd) as (msg & Hmsg & Hdraft).
  destruct (build_message_inv _ _ _ _ _ _ Hmsg) as (Hheaders & body & Hbody & Hlines).
  destruct (draft_decodes _ _ _ Hdraft) as (rendered & Hrendered & Hdecoded).
  destruct msg as [hs ls]. cbn [msg_headers msg_lines] in *. subst hs ls.
  now exists body, rendered.
Qed.



(** * The properties on concrete runs *)

(** The mailbox of the first scenario: one unread message from Jane
    under Leads_New. *)

(** C1 fails as stated: without the key the run lists Leads_New and
    fetches the message before it ends with the error of the missing
    key. *)
Lemma missing_key_run_calls_mail_service :
  let service := mailbox_services (leads_only without_key (answer reply_text)) in
  let run := process_unread_messages service plain_email [] in
  environ service !! lit "OPENAI_API_KEY" = None
  /\ events_of run
     = [MessagesList (list_request_of (lit "Leads_New"));
        MessagesGet (get_request_of (lit "m1"))]
  /\ result_of run = Raise missing_key_error.
Proof. vm_compute. repeat split. Qed.

Lemma missing_key_witness :
  let service := mailbox_services (leads_only without_key (answer reply_text)) in
  falsy (environ service !! lit "OPENAI_API_KEY") = true
  /\ Forall no_generation_no_draft
       (events_of (process_unread_messages service plain_email []))
  /\ process_message service plain_email {| id := lit "m1" |} []
     = ([], [MessagesGet (get_request_of (lit "m1"))], Raise missing_key_error).
Proof.
  cbv zeta. split; [reflexivity|].
  pose proof (missing_key_no_generation_no_draft
                (mailbox_services (leads_only without_key (answer reply_text)))
                plain_email eq_refl) as [Hevents Hturn].
  split; [apply Hevents|apply Hturn].
Defined.

(** C2 fails as stated: the endpoint fails for the message under
    Leads_New, and the run ends there; none of the three labels after
    Leads_New is listed. *)
Lemma generation_failure_stops_later_labels :
  let service := mailbox_services (leads_only with_key (inl (lit "quota"))) in
  let run := process_unread_messages service plain_email [] in
  result_of run = Raise (OpenAIError (lit "quota"))
  /\ events_of run
     = [MessagesList (list_request_of (lit "Leads_New"));
        MessagesGet (get_request_of (lit "m1"));
        ChatCompletionCreate
          (chat_request_of
             (prompt_of (lit "Jane Doe <jane@example.com>") (lit "Booth availability?")
                (lit "Hi, do you have a booth for June 5th?")))]
  /\ Forall (fun label => ~ In (MessagesList (list_request_of label)) (events_of run))
       [lit "Clients_OpenQuestions"; lit "Finance_Bookings"; lit "Event_Changes"].
Proof.
  cbv zeta. split; [vm_compute; reflexivity|].
  assert (Hevents :
    events_of (process_unread_messages
                 (mailbox_services (leads_only with_key (inl (lit "quota"))))
                 plain_email [])
    = [MessagesList (list_request_of (lit "Leads_New"));
       MessagesGet (get_request_of (lit "m1"));
       ChatCompletionCreate
         (chat_request_of
            (prompt_of (lit "Jane Doe <jane@example.com>") (lit "Booth availability?")
               (lit "Hi, do you have a booth for June 5th?")))])
    by (vm_compute; reflexivity).
  split; [exact Hevents|]. rewrite Hevents.
  repeat constructor; intros [H|[H|[H|[]]]]; discriminate H.
Qed.

Lemma generation_failure_witness :
  let service := mailbox_services (leads_only with_key (inl (lit "quota"))) in
  process_unread_messages service plain_email []
  = ([],
     [MessagesList (list_request_of (lit "Leads_New"));
      MessagesGet (get_request_of (lit "m1"));
      ChatCompletionCreate
        (chat_request_of
           (prompt_of (sender_of jane) (subject_of jane) (snippet_of jane)))],
     Raise (OpenAIError (lit "quota"))).
Proof.
  cbv zeta.
  apply (generation_failure_ends_run
           (mailbox_services (leads_only with_key (inl (lit "quota")))) plain_email
           [] (lit "Leads_New")
           [lit "Clients_OpenQuestions"; lit "Finance_Bookings"; lit "Event_Changes"]
           [] [] [] [] (one_message (lit "m1")) [] {| id := lit "m1" |} []
           [] [] [] jane [] (lit "quota"));
    reflexivity.
Defined.

(** C5 fails as stated: the scan of Leads_New fails because the mail
    service cannot be reached, which is no [HttpError]; the run ends
    with this exception right after the list call, and
    Clients_OpenQuestions, which holds an unread message, is never
    scanned. *)
Lemma scan_transport_failure_ends_run :
  let service := mailbox_services leads_unreachable in
  let run := process_unread_messages service plain_email [] in
  messages_list service (list_request_of (lit "Leads_New")) []
  = ([], Raise server_not_found)
  /\ mb_list leads_unreachable (lit "Clients_OpenQuestions") = Ok (one_message (lit "m2"))
  /\ run = ([], [MessagesList (list_request_of (lit "Leads_New"))], Raise server_not_found)
  /\ ~ In (MessagesList (list_request_of (lit "Clients_OpenQuestions"))) (events_of run).
Proof.
  cbv zeta. split; [reflexivity|]. split; [reflexivity|].
  assert (Hrun : process_unread_messages (mailbox_services leads_unreachable) plain_email []
                 = ([], [MessagesList (list_request_of (lit "Leads_New"))],
                    Raise server_not_found))
    by (vm_compute; reflexivity).
  split; [exact Hrun|]. rewrite Hrun. cbn [events_of fst snd].
  intros [H|[]]. discriminate H.
Qed.

(** The second scenario (the scan of Leads_New fails, the next label
    holds a message) and a mailbox whose first fetch fails. *)
Lemma scan_failure_witness :
  process_unread_messages (mailbox_services leads_down) plain_email []
  = after [MessagesList (list_request_of (lit "Leads_New"));
           Print (lit "An error occurred processing label Leads_New: 503")]
      (process_labels (mailbox_services leads_down) plain_email
         [lit "Clients_OpenQuestions"; lit "Finance_Bookings"; lit "Event_Changes"] [])
  /\ process_unread_messages (mailbox_services first_fetch_fails) plain_email []
     = after [MessagesList (list_request_of (lit "Leads_New"));
              MessagesGet (get_request_of (lit "gone"));
              Print (lit "An error occurred processing label Leads_New: 404")]
         (process_labels (mailbox_services first_fetch_fails) plain_email
            [lit "Clients_OpenQuestions"; lit "Finance_Bookings"; lit "Event_Changes"] []).
Proof.
  split.
  - apply (proj1 (scan_failure_confined_to_label (mailbox_services leads_down) plain_email)
             [] (lit "Leads_New")
             [lit "Clients_OpenQuestions"; lit "Finance_Bookings"; lit "Event_Changes"]
             [] [] [] [] (lit "503"));
      reflexivity.
  - apply (proj2 (scan_failure_confined_to_label (mailbox_services first_fetch_fails)
                    plain_email)
             [] (lit "Leads_New")
             [lit "Clients_OpenQuestions"; lit "Finance_Bookings"; lit "Event_Changes"]
             [] [] [] []
             {| messages := Some [ {| id := lit "gone" |}; {| id := lit "m1" |} ] |}
             [] {| id := lit "gone" |} [ {| id := lit "m1" |} ] [] [] []
             [MessagesGet (get_request_of (lit "gone"))] (lit "404"));
      reflexivity.
Defined.

Lemma empty_label_witness :
  let service := mailbox_services (leads_only with_key (answer reply_text)) in
  try_label service plain_email (lit "Finance_Bookings") [jane_draft]
  = ([jane_draft], [MessagesList (list_request_of (lit "Finance_Bookings"))], Ok tt)
  /\ process_labels service plain_email
       [lit "Clients_OpenQuestions"; lit "Finance_Bookings"; lit "Event_Changes"]
       [jane_draft]
     = after [MessagesList (list_request_of (lit "Clients_OpenQuestions"));
              MessagesList (list_request_of (lit "Finance_Bookings"))]
         (process_labels service plain_email [lit "Event_Changes"] [jane_draft]).
Proof.
  cbv zeta.
  apply (empty_label_is_skipped
           (mailbox_services (leads_only with_key (answer reply_text))) plain_email
           [lit "Clients_OpenQuestions"] (lit "Finance_Bookings") [lit "Event_Changes"]
           [jane_draft] [jane_draft]
           [MessagesList (list_request_of (lit "Clients_OpenQuestions"))]
           [jane_draft] no_messages);
    reflexivity.
Defined.

Lemma configuration_error_witness :
  let service := mailbox_services (leads_only without_key (answer reply_text)) in
  try_label service plain_email (lit "Leads_New") []
  = ([],
     [MessagesList (list_request_of (lit "Leads_New"));
      MessagesGet (get_request_of (lit "m1"))],
     Raise missing_key_error)
  /\ process_unread_messages service plain_email []
     = ([],
        [MessagesList (list_request_of (lit "Leads_New"));
         MessagesGet (get_request_of (lit "m1"))],
        Raise missing_key_error).
Proof.
  cbv zeta.
  apply (configuration_error_ends_run
           (mailbox_services (leads_only without_key (answer reply_text))) plain_email
           [] (lit "Leads_New")
           [lit "Clients_OpenQuestions"; lit "Finance_Bookings"; lit "Event_Changes"]
           [] [] [] []
           [MessagesList (list_request_of (lit "Leads_New"));
            MessagesGet (get_request_of (lit "m1"))]
           (lit "OPENAI_API_KEY environment variable not set. Please set it before running."));
    reflexivity.
Defined.

Lemma generate_reply_witness :
  let service := mailbox_services (leads_only with_key (answer reply_text)) in
  let run :=
    generate_reply service (lit "Jane Doe <jane@example.com>") (lit "Booth availability?")
      (lit "Hi, do you have a booth for June 5th?") [] in
  falsy (environ service !! lit "OPENAI_API_KEY") = false
  /\ events_of run
     = [ChatCompletionCreate
          (chat_request_of
             (prompt_of (lit "Jane Doe <jane@example.com>") (lit "Booth availability?")
                (lit "Hi, do you have a booth for June 5th?")))]
  /\ result_of run = Ok (lit "Hello Jane, yes we do. PhoBoCo Team").
Proof.
  cbv zeta. split; [reflexivity|].
  pose proof (generate_reply_one_request_trimmed
                (mailbox_services (leads_only with_key (answer reply_text)))
                (lit "Jane Doe <jane@example.com>") (lit "Booth availability?")
                (lit "Hi, do you have a booth for June 5th?") [] eq_refl)
    as (Hevents & _ & Hanswer).
  split; [exact Hevents|]. exact (proj1 (proj2 Hanswer)).
Defined.

(** A message without headers is answered all the same: both fields are
    empty, the draft goes to nobody and its subject is [Re: ]. *)
Lemma missing_header_witness :
  let service := mailbox_services leads_bare in
  (header_absent (lit "Subject") bare \/ header_absent (lit "From") bare)
  /\ subject_of bare = []
  /\ sender_of bare = []
  /\ process_message service plain_email {| id := lit "m3" |} []
     = ([bare_draft],
        [MessagesGet (get_request_of (lit "m3"));
         ChatCompletionCreate (chat_request_of (prompt_of [] [] (lit "ping")));
         DraftsCreate (draft_request_of bare_draft)],
        Ok tt).
Proof.
  cbv zeta.
  assert (Habsent : forall n, header_absent n bare) by (intros n; constructor).
  split; [left; apply Habsent|].
  pose proof (missing_header_is_empty_string (mailbox_services leads_bare) plain_email
                {| id := lit "m3" |} [] [] bare []
                {| choices :=
                     [ {| message := {| role := lit "assistant"; content := reply_text |} |} ] |}
                {| message := {| role := lit "assistant"; content := reply_text |} |} []
                bare_draft [bare_draft] (Ok tt)
                eq_refl (or_introl (Habsent _)) eq_refl eq_refl eq_refl eq_refl eq_refl)
    as (Hsubject & Hsender & Hturn).
  split; [apply Hsubject, Habsent|]. split; [apply Hsender, Habsent|]. exact Hturn.
Defined.



Lemma draft_sender_witness :
  let service := mailbox_services (leads_only with_key (answer reply_text)) in
  In (DraftsCreate (draft_request_of jane_draft))
    (events_of (process_unread_messages service plain_email []))
  /\ draft_userId (draft_request_of jane_draft) = lit "me"
  /\ exists msg,
      get_header (lit "From") (msg_headers msg) = Some (lit "me")
      /\ draft_of_message plain_email msg jane_draft.
Proof.
  cbv zeta.
  assert (Hin : In (DraftsCreate (draft_request_of jane_draft))
                  (events_of
                     (process_unread_messages
                        (mailbox_services (leads_only with_key (answer reply_text)))
                        plain_email [])))
    by (do 3 right; left; reflexivity).
  split; [exact Hin|].
  destruct (draft_sender_is_me _ _ _ _ _ Hin)
    as (Huser & to_email & subject & reply_body & msg & _ & Hfrom & Hdraft).
  split; [exact Huser|]. now exists msg.
Defined.



(** * Further properties of the pipeline *)

(** ** Properties of whole traces *)

Section TraceFacts.

Context {World : Type}.

Lemma trace_bind {A B} (P : list event -> Prop) (m : M World A) (k : A -> M World B) w :
  (forall a b, P a -> P b -> P (a ++ b)) ->
  P (events_of (m w)) ->
  (forall a w1, P (events_of (k a w1))) ->
  P (events_of (bind m k w)).
Proof.
  intros Happ Hm Hk. unfold bind.
  destruct (m w) as [[w1 t1] [a|e]]; [|exact Hm].
  specialize (Hk a w1). destruct (k a w1) as [[w2 t2] r].
  unfold events_of in *. simpl in *. now apply Happ.
Qed.

Lemma trace_for_each {A} (P : list event -> Prop) (body : A -> M World unit) xs :
  P [] ->
  (forall a b, P a -> P b -> P (a ++ b)) ->
  (forall x w, P (events_of (body x w))) ->
  forall w, P (events_of (for_each xs body w)).
Proof.
  intros Hnil Happ Hbody. induction xs as [|x xs IH]; intros w.
  - exact Hnil.
  - simpl. apply trace_bind; auto.
Qed.

Lemma trace_try_except {A} (P : list event -> Prop) (m : M World A) catches handler w :
  (forall a b, P a -> P b -> P (a ++ b)) ->
  P (events_of (m w)) ->
  (forall e w1, P (events_of (handler e w1))) ->
  P (events_of (try_except m catches handler w)).
Proof.
  intros Happ Hm Hh. unfold try_except.
  destruct (m w) as [[w1 t1] [a|e]]; [exact Hm|].
  destruct (catches e); [|exact Hm].
  specialize (Hh e w1). destruct (handler e w1) as [[w2 t2] r].
  unfold events_of in *. simpl in *. now apply Happ.
Qed.

Lemma count_events_app p (a b : list event) :
  count_events p (a ++ b) = (count_events p a + count_events p b)%nat.
Proof. induction a as [|ev a IH]; simpl; [reflexivity|]. rewrite IH. lia. Qed.

Lemma list_calls_app (a b : list event) :
  list_calls (a ++ b) = list_calls a ++ list_calls b.
Proof.
  induction a as [|ev a IH]; simpl; [reflexivity|].
  destruct ev; simpl; now rewrite IH.
Qed.

Lemma store_order_app (a b : list event) :
  store_after_generate_after_fetch a ->
  store_after_generate_after_fetch b ->
  store_after_generate_after_fetch (a ++ b).
Proof.
  unfold store_after_generate_after_fetch. rewrite !count_events_app. lia.
Qed.

End TraceFacts.

Section Turns.

Context {World : Type} (service : Services World) (email : EmailLib).

Lemma turn_shape ref w :
  (events_of (process_message service email ref w)
   = [MessagesGet (get_request_of (id ref))]
   /\ exists e, result_of (process_message service email ref w) = Raise e)
  \/ (exists c,
        events_of (process_message service email ref w)
        = [MessagesGet (get_request_of (id ref)); ChatCompletionCreate c]
        /\ exists e, result_of (process_message service email ref w) = Raise e)
  \/ (exists c d,
        events_of (process_message service email ref w)
        = [MessagesGet (get_request_of (id ref)); ChatCompletionCreate c;
           DraftsCreate d]).
Proof.
  destruct (messages_get service (get_request_of (id ref)) w) as [w1 [fm|e]] eqn:Hget.
  2:{ left. rewrite (process_message_fetch_raise _ _ _ _ _ _ Hget).
      split; [reflexivity|now exists e]. }
  rewrite (process_message_fetch_ok _ _ _ _ _ _ Hget).
  destruct (falsy (environ service !! lit "OPENAI_API_KEY")) eqn:Hkey.
  { left. erewrite bind_Raise by now apply generate_reply_without_key.
    split; [reflexivity|now eexists]. }
  right.
  pose proof (generate_reply_with_key service (sender_of fm) (subject_of fm)
                (snippet_of fm) w1 Hkey) as Hgen.
  cbv zeta in Hgen.
  destruct (chat_completion_create service _ w1) as [w2 [detail|response]].
  { left. eexists. erewrite bind_Raise by exact Hgen.
    split; [reflexivity|now eexists]. }
  destruct (choices response) as [|choice others].
  { left. eexists. erewrite bind_Raise by exact Hgen.
    split; [reflexivity|now eexists]. }
  erewrite bind_Ok by exact Hgen. rewrite bind_lift.
  destruct (create_message email user_id (sender_of fm) (subject_of fm) _) as [d|e].
  - right. do 2 eexists. unfold call.
    destruct (drafts_create service (draft_request_of d) w2). reflexivity.
  - left. eexists. split; [reflexivity|now eexists].
Qed.

(** X1.  The turn of a message is the fetch, then one generation
    request, then the storing of one draft, cut short at the first step
    that raises; nothing else happens in it, and a turn that ends
    normally went through all three. *)
Theorem turn_is_fetch_generate_store :
  forall ref w,
    exists c d,
      (events_of (process_message service email ref w)
       = [MessagesGet (get_request_of (id ref))]
       \/ events_of (process_message service email ref w)
          = [MessagesGet (get_request_of (id ref)); ChatCompletionCreate c]
       \/ events_of (process_message service email ref w)
          = [MessagesGet (get_request_of (id ref)); ChatCompletionCreate c;
             DraftsCreate d])
      /\ (result_of (process_message service email ref w) = Ok tt ->
          events_of (process_message service email ref w)
          = [MessagesGet (get_request_of (id ref)); ChatCompletionCreate c;
             DraftsCreate d]).
Proof.
  intros ref w.
  pose (no_chat := chat_request_of []). pose (no_draft := draft_request_of {| raw := [] |}).
  destruct (turn_shape ref w) as [[Ht [e He]]|[(c & Ht & e & He)|(c & d & Ht)]].
  - exists no_chat, no_draft. split; [now left|]. rewrite He. discriminate.
  - exists c, no_draft. split; [right; now left|]. rewrite He. discriminate.
  - exists c, d. split; [right; now right|]. intros _. exact Ht.
Qed.

Lemma turn_store_order ref w :
  store_after_generate_after_fetch (events_of (process_message service email ref w)).
Proof.
  destruct (turn_shape ref w) as [[-> _]|[(c & -> & _)|(c & d & ->)]];
    unfold store_after_generate_after_fetch; simpl; lia.
Qed.

(** X2.  In every run there are at most as many stored drafts as
    generation requests and at most as many generation requests as
    fetches: no draft is stored without a reply generated for it, no
    reply generated without a message fetched. *)
Theorem run_store_after_generate_after_fetch :
  forall labels w,
    (count_events is_draft (events_of (process_labels service email labels w))
     <= count_events is_chat (events_of (process_labels service email labels w)))%nat
    /\ (count_events is_chat (events_of (process_labels service email labels w))
        <= count_events is_get (events_of (process_labels service email labels w)))%nat.
Proof.
  intros labels.
  change (forall w, store_after_generate_after_fetch
                      (events_of (process_labels service email labels w))).
  unfold process_labels. apply trace_for_each.
  - unfold store_after_generate_after_fetch. simpl. lia.
  - apply store_order_app.
  - intros label w. unfold try_label. apply trace_try_except.
    + apply store_order_app.
    + unfold process_label. unfold_bind. apply trace_bind.
      * apply store_order_app.
      * unfold call. destruct (messages_list service _ w) as [w1 r].
        unfold store_after_generate_after_fetch. simpl. lia.
      * intros response w1. apply trace_for_each.
        -- unfold store_after_generate_after_fetch. simpl. lia.
        -- apply store_order_app.
        -- apply turn_store_order.
    + intros e w1. unfold store_after_generate_after_fetch. simpl. lia.
Qed.

(** The turn of a label never ends with an [HttpError]. *)
Lemma try_label_result label w :
  result_of (try_label service email label w) = Ok tt
  \/ exists e, result_of (try_label service email label w) = Raise e
               /\ is_HttpError e = false.
Proof.
  destruct (process_label service email label w) as [[w1 t] [[]|e]] eqn:Hlabel.
  - left. now rewrite (try_label_ok _ _ _ _ _ _ _ Hlabel).
  - destruct (is_HttpError e) eqn:He.
    + left. now rewrite (try_label_caught _ _ _ _ _ _ _ Hlabel He).
    + right. exists e. now rewrite (try_label_uncaught _ _ _ _ _ _ _ Hlabel He).
Qed.

Lemma run_result labels w :
  result_of (process_labels service email labels w) = Ok tt
  \/ exists e, result_of (process_labels service email labels w) = Raise e
               /\ is_HttpError e = false.
Proof.
  revert w. unfold process_labels. induction labels as [|label labels IH]; intros w.
  - now left.
  - simpl. unfold bind.
    pose proof (try_label_result label w) as Hturn.
    destruct (try_label service email label w) as [[w1 t1] [[]|e]].
    + specialize (IH w1).
      destruct (for_each labels (try_label service email) w1) as [[w2 t2] r].
      exact IH.
    + right. destruct Hturn as [Hok|(e' & He' & Hclass)]; [discriminate|].
      exists e. split; [reflexivity|]. now injection He' as ->.
Qed.

(** X3.  No [HttpError] leaves [process_unread_messages]: whatever the
    mail service answers, a run ends normally or with an exception of
    another class. *)
Theorem no_http_error_leaves_run :
  forall labels w,
    match result_of (process_labels service email labels w) with
    | Ok _ => True
    | Raise e => is_HttpError e = false
    end.
Proof.
  intros labels w.
  destruct (run_result labels w) as [Hok|(e & He & Hclass)].
  - now rewrite Hok.
  - now rewrite He.
Qed.

End Turns.

Section Runs.

Context {World : Type} (service : Services World) (email : EmailLib).

Lemma turn_no_list ref w :
  list_calls (events_of (process_message service email ref w)) = [].
Proof.
  destruct (turn_shape service email ref w)
    as [[-> _]|[(c & -> & _)|(c & d & ->)]]; reflexivity.
Qed.

Lemma turn_no_print ref w :
  Forall (fun ev => is_print ev = false)
    (events_of (process_message service email ref w)).
Proof.
  destruct (turn_shape service email ref w)
    as [[-> _]|[(c & -> & _)|(c & d & ->)]]; now repeat constructor.
Qed.

Lemma process_label_list_calls label w :
  list_calls (events_of (process_label service email label w))
  = [list_request_of label].
Proof.
  unfold process_label. unfold_bind. unfold bind, call.
  destruct (messages_list service (list_request_of label) w) as [w1 [response|e]];
    [|reflexivity].
  pose proof (trace_for_each (fun t => list_calls t = [])
                (process_message service email) (default [] (messages response))
                eq_refl) as Hloop.
  specialize (Hloop (fun a b Ha Hb =>
                       eq_trans (list_calls_app a b)
                         (eq_trans (f_equal (fun x => x ++ list_calls b) Ha) Hb))).
  specialize (Hloop turn_no_list w1).
  destruct (for_each _ _ w1) as [[w2 t2] r]. unfold events_of in *. simpl in *.
  now rewrite Hloop.
Qed.

Lemma process_label_no_print label w :
  Forall (fun ev => is_print ev = false)
    (events_of (process_label service email label w)).
Proof.
  unfold process_label. unfold_bind. apply events_bind.
  - now apply events_call.
  - intros response w1. apply events_for_each. apply turn_no_print.
Qed.

Lemma try_label_list_calls label w :
  list_calls (events_of (try_label service email label w)) = [list_request_of label].
Proof.
  pose proof (process_label_list_calls label w) as Hlabel.
  destruct (process_label service email label w) as [[w1 t] [u|e]] eqn:Hrun.
  - now rewrite (try_label_ok _ _ _ _ _ _ _ Hrun).
  - destruct (is_HttpError e) eqn:He.
    + rewrite (try_label_caught _ _ _ _ _ _ _ Hrun He).
      unfold events_of in *. simpl in *. rewrite list_calls_app, Hlabel. reflexivity.
    + now rewrite (try_label_uncaught _ _ _ _ _ _ _ Hrun He).
Qed.

(** X4.  The labels are scanned in the order of the list, each once:
    the list calls of a run are those of the first labels of the list,
    in order, and those of all the labels when the run ends normally. *)
Theorem labels_scanned_once_in_order :
  forall labels w,
    exists not_reached,
      List.map list_request_of labels
      = list_calls (events_of (process_labels service email labels w)) ++ not_reached
      /\ (result_of (process_labels service email labels w) = Ok tt ->
          not_reached = []).
Proof.
  unfold process_labels. induction labels as [|label labels IH]; intros w.
  - exists []. split; [reflexivity|easy].
  - simpl. unfold bind.
    pose proof (try_label_list_calls label w) as Hturn.
    destruct (try_label service email label w) as [[w1 t1] [u|e]].
    + destruct (IH w1) as (rest & Hrest & Hok).
      destruct (for_each labels (try_label service email) w1) as [[w2 t2] r].
      unfold events_of, result_of in *. simpl in *.
      exists rest. rewrite list_calls_app, Hturn. simpl. split; [now f_equal|exact Hok].
    + unfold events_of, result_of in *. simpl in *.
      exists (List.map list_request_of labels).
      rewrite Hturn. split; [reflexivity|discriminate].
Qed.

Lemma printed_for_weaken labels labels' ev :
  (forall label, In label labels -> In label labels') ->
  printed_for labels ev -> printed_for labels' ev.
Proof.
  intros Hsub. destruct ev; try exact (fun H => H).
  intros (label & detail & Hin & Hline). exists label, detail. auto.
Qed.

Lemma try_label_prints label w :
  Forall (printed_for [label]) (events_of (try_label service email label w)).
Proof.
  assert (Hquiet : forall t, Forall (fun ev => is_print ev = false) t ->
                             Forall (printed_for [label]) t).
  { intros t. apply List.Forall_impl. intros [r|r|r|r|line]; simpl; easy. }
  pose proof (process_label_no_print label w) as Hlabel.
  destruct (process_label service email label w) as [[w1 t] [u|e]] eqn:Hrun.
  - rewrite (try_label_ok _ _ _ _ _ _ _ Hrun). now apply Hquiet.
  - destruct (is_HttpError e) eqn:He.
    + rewrite (try_label_caught _ _ _ _ _ _ _ Hrun He).
      unfold events_of in *. simpl in *. apply Forall_app. split; [now apply Hquiet|].
      constructor; [|constructor].
      destruct e; try discriminate He. exists label, detail. split; [now left|reflexivity].
    + rewrite (try_label_uncaught _ _ _ _ _ _ _ Hrun He). now apply Hquiet.
Qed.

(** X5.  Whatever a run prints is the error line of one of its labels,
    for an [HttpError]: nothing else is ever printed, and a line is
    printed only for a label whose turn was ended by an [HttpError]. *)
Theorem printed_lines_are_label_errors :
  forall labels w,
    Forall (printed_for labels) (events_of (process_labels service email labels w)).
Proof.
  unfold process_labels. induction labels as [|label labels IH]; intros w.
  - constructor.
  - simpl. apply events_bind.
    + eapply List.Forall_impl; [|apply try_label_prints].
      intros ev. apply printed_for_weaken. intros l [<-|[]]. now left.
    + intros _ w1. eapply List.Forall_impl; [|apply IH].
      intros ev. apply printed_for_weaken. intros l Hl. now right.
Qed.

(** X6.  When no label has an unread message, the run is the list calls
    of the labels, in order, and ends normally: no message is fetched,
    no reply generated, no draft stored, nothing printed. *)
Theorem run_over_read_mailbox :
  forall labels w,
    (forall label w', In label labels ->
       exists w1 response,
         messages_list service (list_request_of label) w' = (w1, Ok response)
         /\ default [] (messages response) = []) ->
    events_of (process_labels service email labels w)
    = List.map (fun label => MessagesList (list_request_of label)) labels
    /\ result_of (process_labels service email labels w) = Ok tt.
Proof.
  unfold process_labels. induction labels as [|label labels IH]; intros w Hempty.
  - split; reflexivity.
  - destruct (Hempty label w (or_introl eq_refl)) as (w1 & response & Hscan & Hnone).
    assert (Hturn : try_label service email label w
                    = (w1, [MessagesList (list_request_of label)], Ok tt)).
    { apply try_label_ok.
      rewrite (process_label_scan_ok _ _ _ _ _ _ Hscan), Hnone. reflexivity. }
    rewrite (for_each_ok _ _ _ _ _ _ _ Hturn).
    rewrite events_of_after, result_of_after.
    destruct (IH w1) as [-> ->]; [|split; reflexivity].
    intros l w' Hl. apply Hempty. now right.
Qed.

(** X7.  When the scan of every label is refused with an [HttpError],
    the run still ends normally: it lists every label in order, prints
    one line for each and does nothing else. *)
Theorem run_over_refused_scans :
  forall labels w,
    (forall label w', In label labels ->
       exists w1 detail,
         messages_list service (list_request_of label) w'
         = (w1, Raise (HttpError detail))) ->
    result_of (process_labels service email labels w) = Ok tt
    /\ list_calls (events_of (process_labels service email labels w))
       = List.map list_request_of labels
    /\ count_events is_print (events_of (process_labels service email labels w))
       = length labels
    /\ length (events_of (process_labels service email labels w))
       = (2 * length labels)%nat.
Proof.
  unfold process_labels. induction labels as [|label labels IH]; intros w Hdown.
  - repeat split; reflexivity.
  - destruct (Hdown label w (or_introl eq_refl)) as (w1 & detail & Hscan).
    assert (Hturn : try_label service email label w
                    = (w1, [MessagesList (list_request_of label)]
                           ++ [Print (label_error_line label (HttpError detail))],
                       Ok tt)).
    { apply try_label_caught; [|reflexivity]. now apply process_label_scan_raise. }
    rewrite (for_each_ok _ _ _ _ _ _ _ Hturn).
    rewrite events_of_after, result_of_after.
    destruct (IH w1) as (-> & Hcalls & Hprints & Hlength).
    { intros l w' Hl. apply Hdown. now right. }
    split; [reflexivity|]. simpl. rewrite Hcalls, Hprints, Hlength.
    repeat split; lia.
Qed.

(** X8.  A scan that fails with an exception other than [HttpError] (the
    mail service out of reach, say) is not confined to its label: the
    run ends with that exception right after the list call, nothing is
    printed and the labels after it are not scanned. *)
Theorem other_scan_failure_ends_run :
  forall before label later w0 w t0 w1 e,
    process_labels service email before w0 = (w, t0, Ok tt) ->
    messages_list service (list_request_of label) w = (w1, Raise e) ->
    is_HttpError e = false ->
    process_labels service email (before ++ label :: later) w0
    = (w1, t0 ++ [MessagesList (list_request_of label)], Raise e).
Proof.
  intros before label later w0 w t0 w1 e Hbefore Hscan He.
  eapply process_labels_step_raise; [exact Hbefore|].
  apply try_label_uncaught; [|exact He]. now apply process_label_scan_raise.
Qed.

(** X9.  When the [email] package refuses the message to compose (a
    header value of several lines, a text that UTF-8 cannot carry), the
    reply has been requested already; the exception is not an
    [HttpError], so no draft is stored and the run ends with it. *)
Theorem composer_failure_ends_run :
  forall before label later w0 w t0 w1 response seen ref unseen w2 t2 w3 full_msg w4
         answer choice others e,
    process_labels service email before w0 = (w, t0, Ok tt) ->
    messages_list service (list_request_of label) w = (w1, Ok response) ->
    default [] (messages response) = seen ++ ref :: unseen ->
    for_each seen (process_message service email) w1 = (w2, t2, Ok tt) ->
    messages_get service (get_request_of (id ref)) w2 = (w3, Ok full_msg) ->
    falsy (environ service !! lit "OPENAI_API_KEY") = false ->
    chat_completion_create service
      (chat_request_of
         (prompt_of (sender_of full_msg) (subject_of full_msg) (snippet_of full_msg)))
      w3 = (w4, inr answer) ->
    choices answer = choice :: others ->
    create_message email user_id (sender_of full_msg) (subject_of full_msg)
      (strip (content (message choice))) = Raise e ->
    is_HttpError e = false ->
    process_labels service email (before ++ label :: later) w0
    = (w4,
       t0 ++ MessagesList (list_request_of label) :: t2
          ++ [MessagesGet (get_request_of (id ref));
              ChatCompletionCreate
                (chat_request_of
                   (prompt_of (sender_of full_msg) (subject_of full_msg)
                      (snippet_of full_msg)))],
       Raise e).
Proof.
  intros before label later w0 w t0 w1 response seen ref unseen w2 t2 w3 fm w4
    answer choice others e Hbefore Hscan Hsplit Hseen Hget Hkey Hchat Hchoices Hcompose He.
  eapply process_labels_step_raise; [exact Hbefore|].
  apply try_label_uncaught; [|exact He].
  rewrite (process_label_scan_ok _ _ _ _ _ _ Hscan), Hsplit.
  erewrite for_each_app_raise; [reflexivity|exact Hseen|].
  rewrite (process_message_fetch_ok _ _ _ _ _ _ Hget).
  erewrite bind_Ok.
  2:{ rewrite generate_reply_with_key by exact Hkey. cbv zeta.
      rewrite Hchat, Hchoices. reflexivity. }
  rewrite bind_lift, Hcompose. reflexivity.
Qed.

(** X10.  A message for which every step succeeds leaves exactly the
    fetch, the generation request and the storing of the draft composed
    from its sender, its subject and the stripped reply; the loop then
    goes on with the next message of the label. *)
Theorem successful_turn_then_next_message :
  forall ref unseen w w1 full_msg w2 answer choice others draft_message w3,
    messages_get service (get_request_of (id ref)) w = (w1, Ok full_msg) ->
    falsy (environ service !! lit "OPENAI_API_KEY") = false ->
    chat_completion_create service
      (chat_request_of
         (prompt_of (sender_of full_msg) (subject_of full_msg) (snippet_of full_msg)))
      w1 = (w2, inr answer) ->
    choices answer = choice :: others ->
    create_message email (lit "me") (sender_of full_msg) (subject_of full_msg)
      (strip (content (message choice))) = Ok draft_message ->
    drafts_create service (draft_request_of draft_message) w2 = (w3, Ok tt) ->
    for_each (ref :: unseen) (process_message service email) w
    = after [MessagesGet (get_request_of (id ref));
             ChatCompletionCreate
               (chat_request_of
                  (prompt_of (sender_of full_msg) (subject_of full_msg)
                     (snippet_of full_msg)));
             DraftsCreate {| draft_userId := lit "me"; draft_body_message := draft_message |}]
        (for_each unseen (process_message service email) w3).
Proof.
  intros ref unseen w w1 fm w2 answer choice others d w3
    Hget Hkey Hchat Hchoices Hcompose Hstore.
  apply for_each_ok with (u := tt).
  rewrite (process_message_fetch_ok _ _ _ _ _ _ Hget).
  erewrite bind_Ok.
  2:{ rewrite generate_reply_with_key by exact Hkey. cbv zeta.
      rewrite Hchat, Hchoices. reflexivity. }
  rewrite bind_lift. change (lit "me") with user_id in Hcompose. rewrite Hcompose.
  unfold call. rewrite Hstore. reflexivity.
Qed.

End Runs.

(** ** The fields of a fetched message *)

Lemma header_dict_lookup (n : pystr) (hs : list header) :
  header_dict hs !! n = last_header n hs.
Proof.
  unfold header_dict.
  assert (Hgen : forall d : gmap pystr pystr,
             foldl (fun d h => <[name h := value h]> d) d hs !! n
             = match last_header n hs with Some v => Some v | None => d !! n end).
  { induction hs as [|h hs IH]; intros d; [reflexivity|].
    simpl. rewrite IH. destruct (last_header n hs) as [v|]; [reflexivity|].
    destruct (decide (name h = n)) as [<-|Hne].
    - apply lookup_insert_eq.
    - now apply lookup_insert_ne. }
  rewrite Hgen. destruct (last_header n hs); [reflexivity|apply lookup_empty].
Qed.

(** X11.  The subject and the sender of a fetched message are the values
    of its last header called exactly [Subject] and [From] (an earlier
    header of the same name is overridden, a name in other letter case
    is not seen), and the empty string when there is none. *)
Theorem fields_are_last_headers :
  forall full_msg,
    subject_of full_msg
    = default [] (last_header (lit "Subject") (default [] (headers (payload full_msg))))
    /\ sender_of full_msg
       = default [] (last_header (lit "From") (default [] (headers (payload full_msg)))).
Proof.
  intros full_msg. unfold subject_of, sender_of.
  now rewrite !header_dict_lookup.
Qed.

(** ** More on the Reply Generator *)

Lemma lstrip_spaces (pre s : pystr) :
  forallb is_space pre = true -> lstrip (pre ++ s) = lstrip s.
Proof.
  induction pre as [|c pre IH]; [reflexivity|].
  simpl. intros H. apply andb_true_iff in H as [-> H]. now apply IH.
Qed.

Lemma lstrip_fixed (s : pystr) :
  match s with c :: _ => is_space c = false | [] => True end -> lstrip s = s.
Proof. destruct s as [|c s]; [reflexivity|]. simpl. now intros ->. Qed.

Lemma strip_padding (pre core suf : pystr) :
  forallb is_space pre = true ->
  forallb is_space suf = true ->
  trimmed core = true ->
  strip (pre ++ core ++ suf) = core.
Proof.
  intros Hpre Hsuf Hcore. unfold trimmed in Hcore.
  apply andb_true_iff in Hcore as [Hhead Hlast].
  assert (Hright : rstrip (pre ++ core ++ suf) = rstrip (pre ++ core)).
  { unfold rstrip. rewrite app_assoc, rev_app_distr. f_equal.
    apply lstrip_spaces. rewrite forallb_forall in *.
    intros c Hc. apply Hsuf. now apply in_rev. }
  unfold strip. rewrite Hright.
  destruct core as [|c core].
  - rewrite app_nil_r. unfold rstrip.
    assert (Hall : lstrip (rev pre) = []).
    { rewrite <- (app_nil_r (rev pre)). rewrite lstrip_spaces; [reflexivity|].
      rewrite forallb_forall in *. intros x Hx. apply Hpre. now apply in_rev. }
    now rewrite Hall.
  - assert (Hkeep : rstrip (pre ++ c :: core) = pre ++ c :: core).
    { unfold rstrip. rewrite rev_app_distr.
      destruct (rev (c :: core)) as [|l r] eqn:Hrev.
      - apply (f_equal (@length _)) in Hrev. rewrite length_rev in Hrev. discriminate.
      - rewrite lstrip_fixed.
        + rewrite <- Hrev, <- rev_app_distr. apply rev_involutive.
        + simpl. now apply negb_true_iff. }
    rewrite Hkeep, lstrip_spaces by exact Hpre.
    apply lstrip_fixed. now apply negb_true_iff.
Qed.

Section Replies.

Context {World : Type} (service : Services World).

(** X12.  [generate_reply] raises the error of the missing key, without
    any request, exactly when OPENAI_API_KEY is unset or set to the
    empty string. *)
Theorem configuration_error_iff_no_key :
  forall sender subject body_snippet w,
    generate_reply service sender subject body_snippet w = (w, [], Raise missing_key_error)
    <-> (environ service !! lit "OPENAI_API_KEY" = None
         \/ environ service !! lit "OPENAI_API_KEY" = Some []).
Proof.
  intros sender subject body_snippet w. split.
  - intros Hrun.
    destruct (falsy (environ service !! lit "OPENAI_API_KEY")) eqn:Hkey.
    + destruct (environ service !! lit "OPENAI_API_KEY") as [[|c k]|];
        [now right|discriminate|now left].
    + rewrite (generate_reply_with_key _ _ _ _ _ Hkey) in Hrun. cbv zeta in Hrun.
      destruct (chat_completion_create service _ w) as [w1 [detail|response]];
        discriminate Hrun.
  - intros Hkey. apply generate_reply_without_key.
    destruct Hkey as [H|H]; apply (f_equal falsy) in H; exact H.
Qed.

(** X13.  When the text the endpoint answers is a core without white
    space at its ends, wrapped in white space, the reply is that core:
    only the white space around the text is removed, the white space
    inside it stays, and a text of white space alone gives the empty
    reply, which is returned like any other. *)
Theorem reply_is_unpadded_answer :
  forall sender subject body_snippet w w1 answer choice others pre core suf,
    falsy (environ service !! lit "OPENAI_API_KEY") = false ->
    chat_completion_create service
      (chat_request_of (prompt_of sender subject body_snippet)) w = (w1, inr answer) ->
    choices answer = choice :: others ->
    content (message choice) = pre ++ core ++ suf ->
    forallb is_space pre = true ->
    forallb is_space suf = true ->
    trimmed core = true ->
    result_of (generate_reply service sender subject body_snippet w) = Ok core.
Proof.
  intros sender subject body_snippet w w1 answer choice others pre core suf
    Hkey Hchat Hchoices Hcontent Hpre Hsuf Hcore.
  rewrite (generate_reply_with_key _ _ _ _ _ Hkey). cbv zeta.
  rewrite Hchat, Hchoices, Hcontent. unfold result_of. simpl.
  f_equal. now apply strip_padding.
Qed.

End Replies.

(** X14.  The prompt does not mark where a field ends: what follows a
    line end in the sender can as well be read as the subject line, so
    that two different messages give the same prompt. *)
Theorem prompt_fields_are_not_delimited :
  forall sender middle subject body_snippet,
    prompt_of (sender ++ LF ++ lit "Subject: " ++ middle) subject body_snippet
    = prompt_of sender (middle ++ LF ++ lit "Subject: " ++ subject) body_snippet
    /\ sender ++ LF ++ lit "Subject: " ++ middle <> sender.
Proof.
  intros sender middle subject body_snippet. split.
  - unfold prompt_of. rewrite <- !app_assoc. reflexivity.
  - intros H. apply (f_equal (@length _)) in H.
    rewrite !length_app in H. simpl in H. lia.
Qed.

(** ** More on the Draft Composer *)

Lemma utf8_char_scalar (c : char) : utf8_char c = None <-> is_scalar c = false.
Proof.
  assert (Hlow : c < 55296 -> is_scalar c = false -> False).
  { unfold is_scalar. intros Hc H. apply andb_false_iff in H as [H|H].
    - apply N.ltb_ge in H. lia.
    - apply negb_false_iff, andb_true_iff in H as [H _]. apply N.leb_le in H. lia. }
  unfold utf8_char.
  destruct (N.ltb_spec c 128) as [Hc1|Hc1].
  { split; [discriminate|]. intros H. exfalso. apply Hlow; [lia|exact H]. }
  destruct (N.ltb_spec c 2048) as [Hc2|Hc2].
  { split; [discriminate|]. intros H. exfalso. apply Hlow; [lia|exact H]. }
  destruct (N.ltb_spec c 65536) as [Hc3|Hc3].
  { unfold is_scalar.
    destruct ((55296 <=? c) && (c <=? 57343)) eqn:Hsur.
    - split; [intros _|reflexivity]. apply andb_false_iff. now right.
    - split; [discriminate|]. intros H. apply andb_false_iff in H as [H|H].
      + apply N.ltb_ge in H. lia.
      + discriminate H. }
  unfold is_scalar.
  destruct (N.ltb_spec c 1114112) as [Hc4|Hc4].
  - split; [discriminate|]. intros H. apply andb_false_iff in H as [H|H].
    + discriminate H.
    + apply negb_false_iff, andb_true_iff in H as [_ H]. apply N.leb_le in H. lia.
  - split; reflexivity.
Qed.

Lemma encode_utf8_scalar (s : pystr) :
  encode_utf8 s = None <-> forallb is_scalar s = false.
Proof.
  induction s as [|c s IH]; simpl.
  - split; discriminate.
  - rewrite andb_false_iff, <- IH, <- utf8_char_scalar.
    destruct (utf8_char c), (encode_utf8 s); intuition congruence.
Qed.

Lemma encode_utf8_app (a b : pystr) :
  encode_utf8 (a ++ b)
  = match encode_utf8 a, encode_utf8 b with
    | Some x, Some y => Some (x ++ y)
    | _, _ => None
    end.
Proof.
  induction a as [|c a IH]; simpl.
  - now destruct (encode_utf8 b).
  - rewrite IH. destruct (utf8_char c), (encode_utf8 a), (encode_utf8 b);
      try reflexivity. now rewrite app_assoc.
Qed.

(** X15.  With headers the [email] package accepts, a text made of code
    points UTF-8 can carry is always taken by [set_content]; a text with
    a lone surrogate makes [create_message] raise [UnicodeEncodeError],
    before anything is rendered. *)
Theorem text_must_be_encodable :
  forall email from_email to_email subject message_text,
    header_error email (lit "To") to_email = None ->
    header_error email (lit "From") from_email = None ->
    header_error email (lit "Subject") (lit "Re: " ++ subject) = None ->
    if forallb is_scalar message_text
    then exists msg,
        build_message email from_email to_email subject message_text = Ok msg
    else create_message email from_email to_email subject message_text
         = Raise UnicodeEncodeError.
Proof.
  intros email from_email to_email subject message_text Hto Hfrom Hsubject.
  unfold create_message, build_message, setitem, set_content. unfold_bind.
  rewrite Hto, Hfrom, Hsubject.
  destruct (forallb is_scalar message_text) eqn:Hscalar.
  - destruct (encode_utf8 message_text) as [body|] eqn:Hbody; [now eexists|].
    apply encode_utf8_scalar in Hbody. congruence.
  - apply encode_utf8_scalar in Hscalar. now rewrite Hscalar.
Qed.

Lemma length_b64encode (bs : bytes) :
  length (b64encode bs) = (4 * ((length bs + 2) / 3))%nat.
Proof.
  assert (Hgen : forall n (l : bytes), (length l <= n)%nat ->
             length (b64encode l) = (4 * ((length l + 2) / 3))%nat).
  { induction n as [|n IH]; intros l Hlen.
    - destruct l; [reflexivity|simpl in Hlen; lia].
    - destruct l as [|b0 [|b1 [|b2 rest]]]; try reflexivity.
      cbn [b64encode length]. rewrite IH by (simpl in Hlen; lia).
      replace (S (S (S (length rest))) + 2)%nat with ((length rest + 2) + 1 * 3)%nat by lia.
      rewrite Nat.div_add by lia. lia. }
  now apply (Hgen (length bs)).
Qed.

Lemma urlsafe_sextet0 b0 :
  is_urlsafe_char (Byte.to_N (urlsafe_encode_translation (b64_char (sextet0 b0)))) = true.
Proof. revert b0. apply forall_byte_spec. vm_compute. reflexivity. Qed.

Lemma urlsafe_sextet1 b0 b1 :
  is_urlsafe_char (Byte.to_N (urlsafe_encode_translation (b64_char (sextet1 b0 b1)))) = true.
Proof.
  revert b0 b1.
  apply (forall_byte2_spec
           (fun b0 b1 =>
              is_urlsafe_char
                (Byte.to_N (urlsafe_encode_translation (b64_char (sextet1 b0 b1)))))).
  vm_compute. reflexivity.
Qed.

Lemma urlsafe_sextet2 b1 b2 :
  is_urlsafe_char (Byte.to_N (urlsafe_encode_translation (b64_char (sextet2 b1 b2)))) = true.
Proof.
  revert b1 b2.
  apply (forall_byte2_spec
           (fun b1 b2 =>
              is_urlsafe_char
                (Byte.to_N (urlsafe_encode_translation (b64_char (sextet2 b1 b2)))))).
  vm_compute. reflexivity.
Qed.

Lemma urlsafe_sextet3 b2 :
  is_urlsafe_char (Byte.to_N (urlsafe_encode_translation (b64_char (sextet3 b2)))) = true.
Proof. revert b2. apply forall_byte_spec. vm_compute. reflexivity. Qed.

Lemma urlsafe_b64encode_chars (bs : bytes) :
  forallb is_urlsafe_char (decode_ascii (urlsafe_b64encode bs)) = true.
Proof.
  unfold decode_ascii, urlsafe_b64encode.
  assert (Hgen : forall n (l : bytes), (length l <= n)%nat ->
             forallb is_urlsafe_char
               (List.map Byte.to_N (List.map urlsafe_encode_translation (b64encode l)))
             = true).
  { induction n as [|n IH]; intros l Hlen.
    - destruct l; [reflexivity|simpl in Hlen; lia].
    - destruct l as [|b0 [|b1 [|b2 rest]]].
      + reflexivity.
      + cbn [b64encode List.map forallb].
        now rewrite urlsafe_sextet0, urlsafe_sextet1.
      + cbn [b64encode List.map forallb].
        now rewrite urlsafe_sextet0, urlsafe_sextet1, urlsafe_sextet2.
      + cbn [b64encode List.map forallb].
        rewrite urlsafe_sextet0, urlsafe_sextet1, urlsafe_sextet2, urlsafe_sextet3.
        apply IH. simpl in Hlen. lia. }
  now apply (Hgen (length bs)).
Qed.

(** X16.  The [raw] field of every draft is URL-safe base64 text: it has
    four characters for every three bytes of the rendered message (the
    last group padded), and only letters, digits, [-], [_] and [=],
    never [+] or [/]. *)
Theorem raw_is_urlsafe_base64 :
  forall email from_email to_email subject message_text d,
    create_message email from_email to_email subject message_text = Ok d ->
    exists msg rendered,
      build_message email from_email to_email subject message_text = Ok msg
      /\ as_bytes email msg = Ok rendered
      /\ length (raw d) = (4 * ((length rendered + 2) / 3))%nat
      /\ forallb is_urlsafe_char (raw d) = true.
Proof.
  intros email from_email to_email subject message_text d Hd.
  destruct (create_message_inv _ _ _ _ _ _ Hd) as (msg & Hmsg & rendered & Hrendered & Hraw).
  exists msg, rendered. split; [exact Hmsg|]. split; [exact Hrendered|].
  rewrite Hraw. split; [|apply urlsafe_b64encode_chars].
  unfold decode_ascii, urlsafe_b64encode. rewrite !length_map.
  apply length_b64encode.
Qed.

(** A line end after the last line adds no line. *)
Lemma splitlines_final_break {A} (brk cr lf : A -> bool) (n : A) :
  (forall x, lf x = true -> brk x = true) ->
  brk n = true ->
  forall s c cur,
    brk c = false ->
    splitlines_from brk cr lf cur ((s ++ [c]) ++ [n])
    = splitlines_from brk cr lf cur (s ++ [c]).
Proof.
  intros Hlf Hn s c.
  assert (Hgen : forall k s cur, (length s <= k)%nat -> brk c = false ->
             splitlines_from brk cr lf cur ((s ++ [c]) ++ [n])
             = splitlines_from brk cr lf cur (s ++ [c])).
  { clear s. induction k as [|k IH]; intros s cur Hlen Hc.
    - destruct s; [|simpl in Hlen; lia]. simpl. rewrite Hc. simpl. now rewrite Hn.
    - destruct s as [|a s]; [simpl; rewrite Hc; simpl; now rewrite Hn|].
      cbn [app splitlines_from]. destruct (brk a).
      + f_equal. destruct s as [|b s].
        * cbn [app]. destruct (cr a && lf c) eqn:Hpair.
          -- apply andb_true_iff in Hpair as [_ Hpair]. apply Hlf in Hpair. congruence.
          -- apply (IH [] []); [simpl; lia|exact Hc].
        * cbn [app]. destruct (cr a && lf b).
          -- apply IH; [simpl in Hlen |- *; lia|exact Hc].
          -- apply (IH (b :: s)); [simpl in Hlen |- *; lia|exact Hc].
      + apply IH; [simpl in Hlen |- *; lia|exact Hc]. }
  intros cur. now apply (Hgen (length s)).
Qed.

Lemma continuation_byte (x : N) :
  128 <= Byte.to_N (byte_of_N (N.lor 128 (N.land x 63))).
Proof.
  assert (Hx : N.land x 63 < 64).
  { change 63 with (N.ones 6). rewrite N.land_ones. now apply N.mod_lt. }
  assert (Hall : forallb
                   (fun y => 128 <=? Byte.to_N (byte_of_N (N.lor 128 y)))
                   (List.map N.of_nat (seq 0 64)) = true)
    by (vm_compute; reflexivity).
  rewrite forallb_forall in Hall. apply N.leb_le, Hall.
  apply in_map_iff. exists (N.to_nat (N.land x 63)).
  split; [apply N2Nat.id|]. apply in_seq. lia.
Qed.

(** The last byte of a character that is no line feed and no carriage
    return is neither. *)
Lemma utf8_char_last (c : char) (bs : bytes) :
  utf8_char c = Some bs -> c <> 10 -> c <> 13 ->
  exists front b, bs = front ++ [b] /\ (is_CR b || is_LF b) = false.
Proof.
  unfold utf8_char. intros Hbs Hlf Hcr.
  assert (Hcont : forall front x,
             exists f b, front ++ [byte_of_N (N.lor 128 (N.land x 63))] = f ++ [b]
                         /\ (is_CR b || is_LF b) = false).
  { intros front x. do 2 eexists. split; [reflexivity|].
    pose proof (continuation_byte x) as H. unfold is_CR, is_LF.
    apply orb_false_iff. split; apply N.eqb_neq; lia. }
  destruct (N.ltb_spec c 128) as [Hc1|Hc1].
  { injection Hbs as <-. exists [], (byte_of_N c). split; [reflexivity|].
    unfold is_CR, is_LF. rewrite byte_of_N_small by lia.
    apply orb_false_iff. split; now apply N.eqb_neq. }
  destruct (c <? 2048).
  { injection Hbs as <-. apply (Hcont [_]). }
  destruct (c <? 65536).
  { destruct ((55296 <=? c) && (c <=? 57343)); [discriminate|].
    injection Hbs as <-. apply (Hcont [_; _]). }
  destruct (c <? 1114112); [|discriminate].
  injection Hbs as <-. apply (Hcont [_; _; _]).
Qed.

(** X17.  A line feed after the last character of the text does not
    show in the draft: composing a text that ends in a character other
    than a line feed or a carriage return, and composing the same text
    followed by a line feed, give the same result. *)
Theorem final_line_feed_is_dropped :
  forall email from_email to_email subject message_text c,
    c <> 10 -> c <> 13 ->
    create_message email from_email to_email subject ((message_text ++ [c]) ++ LF)
    = create_message email from_email to_email subject (message_text ++ [c]).
Proof.
  intros email from_email to_email subject message_text c Hlf Hcr.
  unfold create_message, build_message, setitem, set_content. unfold_bind.
  destruct (header_error email (lit "To") to_email); [reflexivity|].
  destruct (header_error email (lit "From") from_email); [reflexivity|].
  destruct (header_error email (lit "Subject") (lit "Re: " ++ subject)); [reflexivity|].
  rewrite !encode_utf8_app.
  destruct (encode_utf8 message_text) as [body|]; [|reflexivity].
  cbn [encode_utf8]. destruct (utf8_char c) as [bc|] eqn:Hc; [|reflexivity].
  destruct (utf8_char_last _ _ Hc Hlf Hcr) as (front & b & -> & Hb).
  change (encode_utf8 LF) with (Some [byte_of_N 10]). rewrite app_nil_r.
  cbn [msg_headers msg_lines new_message app].
  unfold bytes_splitlines.
  rewrite (app_assoc body front [b]).
  now rewrite (splitlines_final_break _ is_CR is_LF (byte_of_N 10)
                 (fun x H => eq_trans (f_equal (orb (is_CR x)) H) (orb_true_r _))
                 eq_refl (body ++ front) b [] Hb).
Qed.

(** ** Building the service *)

Section AuthFacts.

Context {World Creds Flow Resource : Type} (lib : AuthLib World Creds Flow Resource).

(** X18.  With a token.json whose credentials are valid, the service is
    built with them at once: nothing is refreshed, nobody is asked to
    log in, and token.json is not written. *)
Theorem valid_token_is_reused :
  forall w w1 creds w2 built,
    path_exists lib (lit "token.json") w = true ->
    from_authorized_user_file lib (lit "token.json") SCOPES w = (w1, Ok creds) ->
    creds_valid lib creds w1 = true ->
    build lib (lit "gmail") (lit "v1") creds w1 = (w2, built) ->
    get_gmail_service lib w
    = (w2,
       [PathExists (lit "token.json");
        FromAuthorizedUserFile (lit "token.json") SCOPES;
        Build (lit "gmail") (lit "v1") creds],
       built).
Proof.
  intros w w1 creds w2 built Hfound Hload Hvalid Hbuild.
  unfold get_gmail_service, build_service, run_bind, run_call, run_read.
  now rewrite Hfound, Hload, Hvalid, Hbuild.
Qed.

(** X19.  When the stored credentials are expired and carry a refresh
    token but refreshing them fails, the function ends with that
    failure: it does not fall back on the log-in in the browser, writes
    nothing and builds no service. *)
Theorem failed_refresh_is_final :
  forall w w1 creds w2 e,
    path_exists lib (lit "token.json") w = true ->
    from_authorized_user_file lib (lit "token.json") SCOPES w = (w1, Ok creds) ->
    creds_valid lib creds w1 = false ->
    creds_expired lib creds w1 = true ->
    falsy (creds_refresh_token lib creds) = false ->
    creds_refresh lib creds w1 = (w2, Raise e) ->
    get_gmail_service lib w
    = (w2,
       [PathExists (lit "token.json");
        FromAuthorizedUserFile (lit "token.json") SCOPES;
        CredsRefresh creds],
       Raise e).
Proof.
  intros w w1 creds w2 e Hfound Hload Hvalid Hexpired Htoken Hrefresh.
  assert (Hcan : can_refresh lib creds w1 = true).
  { unfold can_refresh. now rewrite Hexpired, Htoken. }
  unfold get_gmail_service, run_bind, run_call, run_read.
  rewrite Hfound, Hload, Hvalid, Hcan. cbv beta iota.
  now rewrite Hrefresh.
Qed.

(** X20.  Stored credentials that are neither valid nor refreshable
    (not expired, or without a refresh token) are given up: the user
    logs in with credentials.json, and token.json is overwritten with
    the new credentials, which are the ones the service is built
    with. *)
Theorem unusable_token_is_replaced :
  forall w w1 creds w2 flow w3 fresh w4 w5 built,
    path_exists lib (lit "token.json") w = true ->
    from_authorized_user_file lib (lit "token.json") SCOPES w = (w1, Ok creds) ->
    creds_valid lib creds w1 = false ->
    creds_expired lib creds w1 = false \/ falsy (creds_refresh_token lib creds) = true ->
    from_client_secrets_file lib (lit "credentials.json") SCOPES w1 = (w2, Ok flow) ->
    run_local_server lib flow 0 w2 = (w3, Ok fresh) ->
    write_text lib (lit "token.json") (creds_to_json lib fresh) w3 = (w4, Ok tt) ->
    build lib (lit "gmail") (lit "v1") fresh w4 = (w5, built) ->
    get_gmail_service lib w
    = (w5,
       [PathExists (lit "token.json");
        FromAuthorizedUserFile (lit "token.json") SCOPES;
        FromClientSecretsFile (lit "credentials.json") SCOPES;
        RunLocalServer 0;
        WriteText (lit "token.json") (creds_to_json lib fresh);
        Build (lit "gmail") (lit "v1") fresh],
       built).
Proof.
  intros w w1 creds w2 flow w3 fresh w4 w5 built
    Hfound Hload Hvalid Hstale Hflow Hlogin Hwrite Hbuild.
  assert (Hcan : can_refresh lib creds w1 = false).
  { unfold can_refresh. destruct Hstale as [-> | ->]; [reflexivity|].
    apply andb_false_r. }
  unfold get_gmail_service, log_in, save_and_build, build_service,
    run_bind, run_call, run_read.
  now rewrite Hfound, Hload, Hvalid, Hcan, Hflow, Hlogin, Hwrite, Hbuild.
Qed.

(** X21.  A run that returns a service took one of four paths: the
    stored token reused as it is; the stored token refreshed; the stored
    token given up for a log-in; a log-in without a stored token.  On
    the last three token.json is written once, before the service is
    built, with the very credentials the service is built with; on the
    first it is not written.  Refresh and log-in never both happen. *)
Theorem service_built_on_one_of_four_paths :
  forall w w' t resource,
    get_gmail_service lib w = (w', t, Ok resource) ->
    exists stored creds,
      t = [PathExists (lit "token.json");
           FromAuthorizedUserFile (lit "token.json") SCOPES;
           Build (lit "gmail") (lit "v1") creds]
      \/ t = [PathExists (lit "token.json");
              FromAuthorizedUserFile (lit "token.json") SCOPES;
              CredsRefresh stored;
              WriteText (lit "token.json") (creds_to_json lib creds);
              Build (lit "gmail") (lit "v1") creds]
      \/ t = [PathExists (lit "token.json");
              FromAuthorizedUserFile (lit "token.json") SCOPES;
              FromClientSecretsFile (lit "credentials.json") SCOPES;
              RunLocalServer 0;
              WriteText (lit "token.json") (creds_to_json lib creds);
              Build (lit "gmail") (lit "v1") creds]
      \/ t = [PathExists (lit "token.json");
              FromClientSecretsFile (lit "credentials.json") SCOPES;
              RunLocalServer 0;
              WriteText (lit "token.json") (creds_to_json lib creds);
              Build (lit "gmail") (lit "v1") creds].
Proof.
  intros w w' t resource.
  assert (Hlogin : forall w0 w1 t1 r,
             log_in lib w0 = (w1, t1, Ok r) ->
             exists creds,
               t1 = [FromClientSecretsFile (lit "credentials.json") SCOPES;
                     RunLocalServer 0;
                     WriteText (lit "token.json") (creds_to_json lib creds);
                     Build (lit "gmail") (lit "v1") creds]).
  { intros w0 w1 t1 r. unfold log_in, save_and_build, build_service, run_bind, run_call.
    destruct (from_client_secrets_file lib _ _ w0) as [wa [flow|e]]; [|discriminate].
    destruct (run_local_server lib flow 0 wa) as [wb [fresh|e]]; [|discriminate].
    destruct (write_text lib _ _ wb) as [wc [[]|e]]; [|discriminate].
    destruct (build lib _ _ fresh wc) as [wd [res|e]]; [|discriminate].
    intros [= _ <- _]. now exists fresh. }
  unfold get_gmail_service, run_bind at 1, run_call at 1.
  destruct (path_exists lib (lit "token.json") w).
  - unfold run_bind at 1, run_call at 1.
    destruct (from_authorized_user_file lib _ _ w) as [w1 [stored|e]]; [|discriminate].
    unfold run_bind at 1, run_read at 1.
    destruct (creds_valid lib stored w1).
    + unfold build_service, run_call.
      destruct (build lib _ _ stored w1) as [w2 [res|e]]; [|discriminate].
      intros [= _ <- _]. exists stored, stored. now left.
    + unfold run_bind at 1, run_read at 1.
      destruct (can_refresh lib stored w1).
      * unfold save_and_build, build_service, run_bind, run_call.
        destruct (creds_refresh lib stored w1) as [w2 [fresh|e]]; [|discriminate].
        destruct (write_text lib _ _ w2) as [w3 [[]|e]]; [|discriminate].
        destruct (build lib _ _ fresh w3) as [w4 [res|e]]; [|discriminate].
        intros [= _ <- _]. exists stored, fresh. right. now left.
      * destruct (log_in lib w1) as [[w2 t2] [r|e]] eqn:Hrun; [|discriminate].
        destruct (Hlogin _ _ _ _ Hrun) as (fresh & ->).
        intros [= _ <- _]. exists stored, fresh. right. right. now left.
  - destruct (log_in lib w) as [[w2 t2] [r|e]] eqn:Hrun; [|discriminate].
    destruct (Hlogin _ _ _ _ Hrun) as (fresh & ->).
    intros [= _ <- _]. exists fresh, fresh. now do 3 right.
Qed.

(** X23.  Stored credentials that are expired and carry a refresh token
    are refreshed without a log-in: token.json is rewritten with the
    refreshed credentials, and the service is built with them. *)
Theorem expired_token_is_refreshed :
  forall w w1 creds w2 fresh w3 w4 built,
    path_exists lib (lit "token.json") w = true ->
    from_authorized_user_file lib (lit "token.json") SCOPES w = (w1, Ok creds) ->
    creds_valid lib creds w1 = false ->
    creds_expired lib creds w1 = true ->
    falsy (creds_refresh_token lib creds) = false ->
    creds_refresh lib creds w1 = (w2, Ok fresh) ->
    write_text lib (lit "token.json") (creds_to_json lib fresh) w2 = (w3, Ok tt) ->
    build lib (lit "gmail") (lit "v1") fresh w3 = (w4, built) ->
    get_gmail_service lib w
    = (w4,
       [PathExists (lit "token.json");
        FromAuthorizedUserFile (lit "token.json") SCOPES;
        CredsRefresh creds;
        WriteText (lit "token.json") (creds_to_json lib fresh);
        Build (lit "gmail") (lit "v1") fresh],
       built).
Proof.
  intros w w1 creds w2 fresh w3 w4 built
    Hfound Hload Hvalid Hexpired Htoken Hrefresh Hwrite Hbuild.
  assert (Hcan : can_refresh lib creds w1 = true).
  { unfold can_refresh. now rewrite Hexpired, Htoken. }
  unfold get_gmail_service, save_and_build, build_service, run_bind, run_call, run_read.
  rewrite Hfound, Hload, Hvalid, Hcan. cbv beta iota.
  now rewrite Hrefresh, Hwrite, Hbuild.
Qed.

(** X24.  On a first run (no token.json) the user logs in with
    credentials.json, the credentials obtained are written to token.json
    and the service is built with them; when credentials.json cannot be
    read, the function ends with that failure before any log-in, and
    token.json is not created. *)
Theorem first_run_logs_in :
  forall w w1 client,
    path_exists lib (lit "token.json") w = false ->
    from_client_secrets_file lib (lit "credentials.json") SCOPES w = (w1, client) ->
    match client with
    | Raise e =>
        get_gmail_service lib w
        = (w1,
           [PathExists (lit "token.json");
            FromClientSecretsFile (lit "credentials.json") SCOPES],
           Raise e)
    | Ok flow =>
        forall w2 fresh w3 w4 built,
          run_local_server lib flow 0 w1 = (w2, Ok fresh) ->
          write_text lib (lit "token.json") (creds_to_json lib fresh) w2 = (w3, Ok tt) ->
          build lib (lit "gmail") (lit "v1") fresh w3 = (w4, built) ->
          get_gmail_service lib w
          = (w4,
             [PathExists (lit "token.json");
              FromClientSecretsFile (lit "credentials.json") SCOPES;
              RunLocalServer 0;
              WriteText (lit "token.json") (creds_to_json lib fresh);
              Build (lit "gmail") (lit "v1") fresh],
             built)
    end.
Proof.
  intros w w1 client Hfound Hclient.
  unfold get_gmail_service, log_in, save_and_build, build_service,
    run_bind, run_call, run_read.
  rewrite Hfound, Hclient. destruct client as [flow|e]; [|reflexivity].
  intros w2 fresh w3 w4 built Hlogin Hwrite Hbuild.
  now rewrite Hlogin, Hwrite, Hbuild.
Qed.

End AuthFacts.

(** ** The entry point *)

Section Main.

Context {World Creds Flow Resource : Type} (lib : AuthLib World Creds Flow Resource)
  (connect : Resource -> Services World) (email : EmailLib).

(** X22.  [main] calls neither Gmail nor the chat endpoint before the
    service is built: when building it raises, [main] ends with that
    exception and its trace is that of [get_gmail_service].  Once the
    service is built, the trace goes on with the run over the labels,
    and [main] does not end with an [HttpError]. *)
Theorem main_runs_pipeline_after_build :
  forall w,
    match get_gmail_service lib w with
    | (w1, t1, Raise e) => main lib connect email w = (w1, List.map inl t1, Raise e)
    | (w1, t1, Ok service) =>
        match main lib connect email w with
        | (w2, t, r) =>
            w2 = world_of (process_unread_messages (connect service) email w1)
            /\ t = List.map inl t1
                   ++ List.map inr
                        (events_of (process_unread_messages (connect service) email w1))
            /\ match r with Ok _ => True | Raise e => is_HttpError e = false end
        end
    end.
Proof.
  intros w. unfold main.
  destruct (get_gmail_service lib w) as [[w1 t1] [service|e]]; [|reflexivity].
  pose proof (run_result (connect service) email LABELS_TO_PROCESS w1) as Hrun.
  fold (process_unread_messages (connect service) email) in Hrun.
  destruct (process_unread_messages (connect service) email w1) as [[w2 t2] r].
  split; [reflexivity|]. split; [reflexivity|].
  unfold result_of in Hrun. simpl in Hrun.
  destruct Hrun as [->|(e & -> & He)]; [exact I|exact He].
Qed.

End Main.

(** * The further properties on concrete runs *)

Lemma read_mailbox_witness :
  events_of (process_unread_messages (mailbox_services all_read) plain_email [])
  = [MessagesList (list_request_of (lit "Leads_New"));
     MessagesList (list_request_of (lit "Clients_OpenQuestions"));
     MessagesList (list_request_of (lit "Finance_Bookings"));
     MessagesList (list_request_of (lit "Event_Changes"))]
  /\ result_of (process_unread_messages (mailbox_services all_read) plain_email [])
     = Ok tt.
Proof.
  apply (run_over_read_mailbox (mailbox_services all_read) plain_email
           LABELS_TO_PROCESS []).
  intros label w' _. exists w', {| messages := Some [] |}. split; reflexivity.
Defined.

Lemma refused_scans_witness :
  result_of (process_unread_messages (mailbox_services all_refused) plain_email [])
  = Ok tt
  /\ list_calls
       (events_of (process_unread_messages (mailbox_services all_refused) plain_email []))
     = List.map list_request_of LABELS_TO_PROCESS
  /\ count_events is_print
       (events_of (process_unread_messages (mailbox_services all_refused) plain_email []))
     = 4%nat
  /\ length
       (events_of (process_unread_messages (mailbox_services all_refused) plain_email []))
     = 8%nat.
Proof.
  apply (run_over_refused_scans (mailbox_services all_refused) plain_email
           LABELS_TO_PROCESS []).
  intros label w' _. exists w', (lit "403"). reflexivity.
Defined.

Lemma other_scan_failure_witness :
  process_unread_messages (mailbox_services unreachable) plain_email []
  = ([], [MessagesList (list_request_of (lit "Leads_New"))],
     Raise (OtherException (lit "ServerNotFoundError")
              (lit "Unable to find the server at gmail.googleapis.com"))).
Proof.
  apply (other_scan_failure_ends_run (mailbox_services unreachable) plain_email
           [] (lit "Leads_New")
           [lit "Clients_OpenQuestions"; lit "Finance_Bookings"; lit "Event_Changes"]
           [] [] [] []
           (OtherException (lit "ServerNotFoundError")
              (lit "Unable to find the server at gmail.googleapis.com")));
    reflexivity.
Defined.

Lemma composer_failure_witness :
  process_unread_messages (mailbox_services leads_two_lines) plain_email []
  = ([],
     [MessagesList (list_request_of (lit "Leads_New"));
      MessagesGet (get_request_of (lit "m4"));
      ChatCompletionCreate
        (chat_request_of
           (prompt_of (sender_of two_lines) (subject_of two_lines) (snippet_of two_lines)))],
     Raise (ValueError
              (lit "Header values may not contain linefeed or carriage return characters"))).
Proof.
  apply (composer_failure_ends_run (mailbox_services leads_two_lines) plain_email
           [] (lit "Leads_New")
           [lit "Clients_OpenQuestions"; lit "Finance_Bookings"; lit "Event_Changes"]
           [] [] [] [] (one_message (lit "m4")) [] {| id := lit "m4" |} []
           [] [] [] two_lines []
           {| choices :=
                [ {| message := {| role := lit "assistant"; content := reply_text |} |} ] |}
           {| message := {| role := lit "assistant"; content := reply_text |} |} []
           (ValueError
              (lit "Header values may not contain linefeed or carriage return characters")));
    reflexivity.
Defined.

Lemma successful_turn_witness :
  let service := mailbox_services (leads_only with_key (answer reply_text)) in
  for_each [ {| id := lit "m1" |}; {| id := lit "m5" |} ]
    (process_message service plain_email) []
  = after [MessagesGet (get_request_of (lit "m1"));
           ChatCompletionCreate
             (chat_request_of
                (prompt_of (sender_of jane) (subject_of jane) (snippet_of jane)));
           DraftsCreate {| draft_userId := lit "me"; draft_body_message := jane_draft |}]
      (for_each [ {| id := lit "m5" |} ] (process_message service plain_email) [jane_draft]).
Proof.
  cbv zeta.
  apply (successful_turn_then_next_message
           (mailbox_services (leads_only with_key (answer reply_text))) plain_email
           {| id := lit "m1" |} [ {| id := lit "m5" |} ] [] [] jane []
           {| choices :=
                [ {| message := {| role := lit "assistant"; content := reply_text |} |} ] |}
           {| message := {| role := lit "assistant"; content := reply_text |} |} []
           jane_draft [jane_draft]);
    reflexivity.
Defined.

Lemma unpadded_answer_witness :
  let service := mailbox_services (leads_only with_key (answer reply_text)) in
  reply_text
  = (LF ++ lit "  ") ++ lit "Hello Jane, yes we do. PhoBoCo Team" ++ (lit " " ++ LF)
  /\ result_of
       (generate_reply service (lit "Jane Doe <jane@example.com>")
          (lit "Booth availability?") (lit "Hi, do you have a booth for June 5th?") [])
     = Ok (lit "Hello Jane, yes we do. PhoBoCo Team").
Proof.
  cbv zeta. split; [reflexivity|].
  apply (reply_is_unpadded_answer
           (mailbox_services (leads_only with_key (answer reply_text)))
           (lit "Jane Doe <jane@example.com>") (lit "Booth availability?")
           (lit "Hi, do you have a booth for June 5th?") [] []
           {| choices :=
                [ {| message := {| role := lit "assistant"; content := reply_text |} |} ] |}
           {| message := {| role := lit "assistant"; content := reply_text |} |} []
           (LF ++ lit "  ") (lit "Hello Jane, yes we do. PhoBoCo Team") (lit " " ++ LF));
    reflexivity.
Defined.

Lemma encodable_text_witness :
  create_message plain_email (lit "me") (lit "jane@example.com") (lit "Hi")
    (lit "Hello " ++ [55357])
  = Raise UnicodeEncodeError
  /\ exists msg,
      build_message plain_email (lit "me") (lit "jane@example.com") (lit "Hi")
        (lit "Hello " ++ [128075]) = Ok msg.
Proof.
  split.
  - exact (text_must_be_encodable plain_email (lit "me") (lit "jane@example.com")
             (lit "Hi") (lit "Hello " ++ [55357]) eq_refl eq_refl eq_refl).
  - exact (text_must_be_encodable plain_email (lit "me") (lit "jane@example.com")
             (lit "Hi") (lit "Hello " ++ [128075]) eq_refl eq_refl eq_refl).
Defined.

Lemma raw_is_urlsafe_witness :
  create_message plain_email (lit "me") (lit "Jane Doe <jane@example.com>")
    (lit "Booth availability?") jane_reply = Ok jane_draft
  /\ length (raw jane_draft) = 272%nat
  /\ forallb is_urlsafe_char (raw jane_draft) = true.
Proof.
  assert (Hd : create_message plain_email (lit "me") (lit "Jane Doe <jane@example.com>")
                 (lit "Booth availability?") jane_reply = Ok jane_draft)
    by reflexivity.
  split; [exact Hd|].
  destruct (raw_is_urlsafe_base64 _ _ _ _ _ _ Hd)
    as (msg & rendered & _ & _ & _ & Hchars).
  split; [reflexivity|exact Hchars].
Defined.

Lemma final_line_feed_witness :
  create_message plain_email (lit "me") (lit "jane@example.com") (lit "Hi")
    ((lit "See you" ++ [33]) ++ LF)
  = create_message plain_email (lit "me") (lit "jane@example.com") (lit "Hi")
      (lit "See you" ++ [33]).
Proof.
  apply (final_line_feed_is_dropped plain_email (lit "me") (lit "jane@example.com")
           (lit "Hi") (lit "See you") 33); discriminate.
Defined.

Lemma valid_token_witness :
  get_gmail_service
    (scripted_auth (World := list draft)
       {| token_file := Some good_creds; refresh_answer := Raise refresh_error;
          login_answer := Raise refresh_error |}) []
  = ([],
     [PathExists (lit "token.json");
      FromAuthorizedUserFile (lit "token.json") SCOPES;
      Build (lit "gmail") (lit "v1") good_creds],
     Ok good_creds).
Proof.
  apply (valid_token_is_reused
           (scripted_auth (World := list draft)
              {| token_file := Some good_creds; refresh_answer := Raise refresh_error;
                 login_answer := Raise refresh_error |})
           [] [] good_creds [] (Ok good_creds));
    reflexivity.
Defined.

Lemma failed_refresh_witness :
  get_gmail_service
    (scripted_auth (World := list draft)
       {| token_file := Some expired_creds; refresh_answer := Raise refresh_error;
          login_answer := Ok good_creds |}) []
  = ([],
     [PathExists (lit "token.json");
      FromAuthorizedUserFile (lit "token.json") SCOPES;
      CredsRefresh expired_creds],
     Raise refresh_error).
Proof.
  apply (failed_refresh_is_final
           (scripted_auth (World := list draft)
              {| token_file := Some expired_creds; refresh_answer := Raise refresh_error;
                 login_answer := Ok good_creds |})
           [] [] expired_creds [] refresh_error);
    reflexivity.
Defined.

Lemma unusable_token_witness :
  get_gmail_service
    (scripted_auth (World := list draft)
       {| token_file := Some dead_creds; refresh_answer := Raise refresh_error;
          login_answer := Ok good_creds |}) []
  = ([],
     [PathExists (lit "token.json");
      FromAuthorizedUserFile (lit "token.json") SCOPES;
      FromClientSecretsFile (lit "credentials.json") SCOPES;
      RunLocalServer 0;
      WriteText (lit "token.json") (lit "ya29.good");
      Build (lit "gmail") (lit "v1") good_creds],
     Ok good_creds).
Proof.
  apply (unusable_token_is_replaced
           (scripted_auth (World := list draft)
              {| token_file := Some dead_creds; refresh_answer := Raise refresh_error;
                 login_answer := Ok good_creds |})
           [] [] dead_creds [] tt [] good_creds [] [] (Ok good_creds));
    try reflexivity.
  right. reflexivity.
Defined.

Lemma four_paths_witness :
  let lib :=
    scripted_auth (World := list draft)
      {| token_file := Some expired_creds; refresh_answer := Ok good_creds;
         login_answer := Raise refresh_error |} in
  let t :=
    [PathExists (lit "token.json");
     FromAuthorizedUserFile (lit "token.json") SCOPES;
     CredsRefresh expired_creds;
     WriteText (lit "token.json") (lit "ya29.good");
     Build (lit "gmail") (lit "v1") good_creds] in
  get_gmail_service lib [] = ([], t, Ok good_creds)
  /\ exists stored creds,
      t = [PathExists (lit "token.json");
           FromAuthorizedUserFile (lit "token.json") SCOPES;
           Build (lit "gmail") (lit "v1") creds]
      \/ t = [PathExists (lit "token.json");
              FromAuthorizedUserFile (lit "token.json") SCOPES;
              CredsRefresh stored;
              WriteText (lit "token.json") (creds_to_json lib creds);
              Build (lit "gmail") (lit "v1") creds]
      \/ t = [PathExists (lit "token.json");
              FromAuthorizedUserFile (lit "token.json") SCOPES;
              FromClientSecretsFile (lit "credentials.json") SCOPES;
              RunLocalServer 0;
              WriteText (lit "token.json") (creds_to_json lib creds);
              Build (lit "gmail") (lit "v1") creds]
      \/ t = [PathExists (lit "token.json");
              FromClientSecretsFile (lit "credentials.json") SCOPES;
              RunLocalServer 0;
              WriteText (lit "token.json") (creds_to_json lib creds);
              Build (lit "gmail") (lit "v1") creds].
Proof.
  cbv zeta. split; [reflexivity|].
  apply (service_built_on_one_of_four_paths
           (scripted_auth (World := list draft)
              {| token_file := Some expired_creds; refresh_answer := Ok good_creds;
                 login_answer := Raise refresh_error |})
           [] [] _ good_creds).
  reflexivity.
Defined.

Lemma expired_token_witness :
  get_gmail_service
    (scripted_auth (World := list draft)
       {| token_file := Some expired_creds; refresh_answer := Ok good_creds;
          login_answer := Raise refresh_error |}) []
  = ([],
     [PathExists (lit "token.json");
      FromAuthorizedUserFile (lit "token.json") SCOPES;
      CredsRefresh expired_creds;
      WriteText (lit "token.json") (lit "ya29.good");
      Build (lit "gmail") (lit "v1") good_creds],
     Ok good_creds).
Proof.
  apply (expired_token_is_refreshed
           (scripted_auth (World := list draft)
              {| token_file := Some expired_creds; refresh_answer := Ok good_creds;
                 login_answer := Raise refresh_error |})
           [] [] expired_creds [] good_creds [] [] (Ok good_creds));
    reflexivity.
Defined.

Lemma first_run_witness :
  get_gmail_service
    (scripted_auth (World := list draft)
       {| token_file := None; refresh_answer := Raise refresh_error;
          login_answer := Ok good_creds |}) []
  = ([],
     [PathExists (lit "token.json");
      FromClientSecretsFile (lit "credentials.json") SCOPES;
      RunLocalServer 0;
      WriteText (lit "token.json") (lit "ya29.good");
      Build (lit "gmail") (lit "v1") good_creds],
     Ok good_creds).
Proof.
  apply (first_run_logs_in
           (scripted_auth (World := list draft)
              {| token_file := None; refresh_answer := Raise refresh_error;
                 login_answer := Ok good_creds |})
           [] [] (Ok tt) eq_refl eq_refl [] good_creds [] [] (Ok good_creds));
    reflexivity.
Defined.
